(** * roots_gen: the generator of the embedded root-certificate bundle

    A shallow embedding of [mobile/roots_gen.go] and the properties of its
    pipeline: fetching and parsing the vendor's trust list
    ([fetchCertIDs]), indexing the local certificate store ([sysCerts]),
    reconciling the two ([selectCerts]) and emitting the allow-listed
    certificates ([main]).

    Go strings and byte slices are byte sequences: both are modelled by
    [string].  Go's [int] indices are [Z].  A run of the program is a
    trace of the effects it performs, followed by the way it ends. *)

From Stdlib Require Import ZArith Ascii String List Lia.
From stdpp Require Import base option list gmap strings fin_maps.

Local Open Scope Z_scope.

(** ** Byte strings as Go sees them *)

Module GoString.

(** The two bytes that a Rocq string literal cannot spell. *)
Definition dquote : string := String "034"%char "".
Definition nl : string := String "010"%char "".

(** [len(s)]. *)
Definition len (s : string) : Z := Z.of_nat (String.length s).

(** [strings.HasPrefix(s, prefix)]. *)
Fixpoint HasPrefix (s prefix : string) {struct prefix} : bool :=
  match prefix with
  | "" => true
  | String c prefix' =>
      match s with
      | "" => false
      | String d s' => if Ascii.eqb c d then HasPrefix s' prefix' else false
      end
  end.

(** [strings.Index(s, substr)]: the index of the first instance of
    [substr] in [s], or [-1] when there is none. *)
Fixpoint Index (s substr : string) : Z :=
  if HasPrefix s substr then 0
  else match s with
       | "" => -1
       | String _ s' =>
           let i := Index s' substr in
           if i <? 0 then -1 else i + 1
       end.

(** The bytes of [s] from position [n] on, and the first [n] bytes. *)
Fixpoint drop_bytes (n : nat) (s : string) : string :=
  match n, s with
  | O, _ => s
  | S n', String _ s' => drop_bytes n' s'
  | S _, "" => ""
  end.

Fixpoint take_bytes (n : nat) (s : string) : string :=
  match n, s with
  | O, _ => ""
  | S n', String c s' => String c (take_bytes n' s')
  | S _, "" => ""
  end.

(** [strings.ReplaceAll(s, old, new)] for a non-empty [old], the only
    way the program calls it: the non-overlapping instances of [old]
    are replaced from left to right.  [skip] counts the bytes of an
    instance that are still to be passed over. *)
Fixpoint ReplaceAll_from (skip : nat) (s old new : string) : string :=
  match s with
  | "" => ""
  | String c s' =>
      match skip with
      | S k => ReplaceAll_from k s' old new
      | O =>
          if HasPrefix s old
          then new +:+ ReplaceAll_from (String.length old - 1) s' old new
          else String c (ReplaceAll_from O s' old new)
      end
  end.

Definition ReplaceAll (s old new : string) : string :=
  ReplaceAll_from O s old new.

(** [strings.ToLower] on ASCII text: the letters [A]..[Z] are mapped to
    [a]..[z]; every other byte is kept.  (On a text with a byte of 128 or
    more Go works rune by rune; what is proved of the result of [ToLower]
    itself is proved for ASCII text.) *)
Definition lower_byte (c : ascii) : ascii :=
  let n := nat_of_ascii c in
  if ((65 <=? n) && (n <=? 90))%nat then ascii_of_nat (n + 32) else c.

Fixpoint ToLower (s : string) : string :=
  match s with
  | "" => ""
  | String c s' => String (lower_byte c) (ToLower s')
  end.

(** [hex.EncodeToString]: two lower-case hexadecimal digits per byte. *)
Definition hex_digit (n : nat) : ascii :=
  if (n <? 10)%nat then ascii_of_nat (48 + n) else ascii_of_nat (87 + n).

Fixpoint EncodeToString (src : string) : string :=
  match src with
  | "" => ""
  | String c src' =>
      let n := nat_of_ascii c in
      String (hex_digit (n / 16)) (String (hex_digit (n mod 16)) (EncodeToString src'))
  end.

End GoString.

Import GoString.

(** ** Runs: effects and the ways a Go function ends *)

(** A Go [error] value, kept as its message. *)
Definition error : Type := string.

(** How a call ends.  A function of Go type [(T, error)] either returns
    a value with a nil error ([Ret]) or a non-nil error ([Fail]); every
    caller in this program hands a non-nil error straight on.  A failed
    bounds check is a run-time panic; [log.Fatal] ends the process with
    status 1; [Diverge] is a loop that never leaves. *)
Inductive outcome (A : Type) : Type :=
  | Ret (a : A)
  | Fail (err : error)
  | Panic (msg : string)
  | Exit (code : Z)
  | Diverge.

Arguments Ret {A} a.
Arguments Fail {A} err.
Arguments Panic {A} msg.
Arguments Exit {A} code.
Arguments Diverge {A}.

Definition outcome_bind {A B : Type} (f : A → outcome B) (o : outcome A) : outcome B :=
  match o with
  | Ret a => f a
  | Fail err => Fail err
  | Panic msg => Panic msg
  | Exit code => Exit code
  | Diverge => Diverge
  end.

#[export] Instance outcome_ret : MRet outcome := λ A a, Ret a.
#[export] Instance outcome_mbind : MBind outcome := λ A B f o, outcome_bind f o.

(** What the program does to the outside, in the order it does it:
    [http.Get], the start of a command, [fmt.Printf] (with the text
    printed), [log.Printf] and [log.Fatal] (with the text handed to the
    logger, which adds its own prefix) and [ioutil.WriteFile]. *)
Inductive event : Type :=
  | EvHttpGet (url : string)
  | EvExec (name : string) (args : list string)
  | EvStdout (text : string)
  | EvLog (text : string)
  | EvWriteFile (filename data : string) (perm : Z).

Definition run (A : Type) : Type := (list event * outcome A)%type.

Definition run_bind {A B : Type} (f : A → run B) (r : run A) : run B :=
  match r.2 with
  | Ret a => (r.1 ++ (f a).1, (f a).2)
  | Fail err => (r.1, Fail err)
  | Panic msg => (r.1, Panic msg)
  | Exit code => (r.1, Exit code)
  | Diverge => (r.1, Diverge)
  end.

#[export] Instance run_ret : MRet run := λ A a, ([], Ret a).
#[export] Instance run_mbind : MBind run := λ A B f r, run_bind f r.

Definition emit (e : event) : run unit := ([e], Ret tt).
Definition lift {A : Type} (o : outcome A) : run A := ([], o).

(** [log.Fatal(v...)]: print to the log, then [os.Exit(1)]. *)
Definition log_Fatal {A : Type} (text : string) : run A := ([EvLog text], Exit 1).

(** The status the process ends with: 0 after [main] returns, 2 after a
    panic, the argument of [os.Exit] otherwise. *)
Definition exit_code {A : Type} (o : outcome A) : option Z :=
  match o with
  | Ret _ => Some 0
  | Fail _ => None
  | Panic _ => Some 2
  | Exit code => Some code
  | Diverge => None
  end.

(** The files a run wrote, oldest first. *)
Definition writes (t : list event) : list (string * string) :=
  omap (λ e, match e with EvWriteFile f d _ => Some (f, d) | _ => None end) t.

(** The commands a run started. *)
Definition execs (t : list event) : list string :=
  omap (λ e, match e with EvExec n _ => Some n | _ => None end) t.

(** The lines a run printed on standard output. *)
Definition stdout (t : list event) : list string :=
  omap (λ e, match e with EvStdout s => Some s | _ => None end) t.

(** ** The outside world *)

(** [http.Get] followed by [ioutil.ReadAll] of the response body. *)
Inductive httpResponse : Type :=
  | GetFailed (err : error)
  | ReadFailed (err : error)
  | Body (body : string).

(** What one run receives from outside: the answer of the network, the
    answer of the started command, the value of [*output] and the answer
    of the file system to the final write. *)
Record World : Type := {
  http_Get : string → httpResponse;
  cmd_Output : string → list string → error + string;
  output : string;
  ioutil_WriteFile : string → string → Z → option error
}.

(** ** The library code the program calls *)

(** [pem.Block]. *)
Record Block : Type := {
  Type_ : string;
  Headers : gmap string string;
  Bytes : string
}.

(** [x509.Certificate], as far as the program reads it: the raw DER
    bytes and the subject, the latter through [cert.Subject.String()]. *)
Record Certificate : Type := {
  Raw : string;
  Subject_String : string
}.

(** The functions of [encoding/pem], [crypto/x509], [crypto/sha256] and
    [go/format].  [pem_Decode] gives the next block (if any) and the rest
    of the input; [pem_Encode] gives the bytes [pem.Encode] writes. *)
Class GoLib : Type := {
  pem_Decode : string → option Block * string;
  pem_Encode : Block → error + string;
  x509_ParseCertificate : string → error + Certificate;
  sha256_Sum256 : string → string;
  format_Source : string → error + string
}.

(** [pem.Decode] returns, with a block, a rest that is shorter than its
    input: the block's own lines are consumed. *)
Definition pem_Decode_consumes `{GoLib} : Prop :=
  ∀ data block rest,
    pem_Decode data = (Some block, rest) →
    (String.length rest < String.length data)%nat.

(** ** The regular expressions of [fetchCertIDs] *)

(** The three patterns are of one shape, [(?s)<x>(.*?)</x>]: a literal
    opening tag, a lazy group that may span lines, a literal closing tag. *)
Record lazyTag : Type := { open_tag : string; close_tag : string }.

Definition re_tr : lazyTag := {| open_tag := "<tr>"; close_tag := "</tr>" |}.
Definition re_th : lazyTag := {| open_tag := "<th>"; close_tag := "</th>" |}.
Definition re_td : lazyTag := {| open_tag := "<td>"; close_tag := "</td>" |}.

(** [re.FindAllStringSubmatch(s, -1)], each match given by its group 1,
    the only part the program reads.  A match starts at the leftmost
    opening tag and, the group being lazy, ends with the first closing tag
    behind it; the search goes on behind the match.  An opening tag with
    no closing tag behind it ends the search, since no later opening tag
    has one either.  Each match consumes at least one byte, so a fuel of
    the length of [s] is never used up. *)
Fixpoint FindAll_fuel (fuel : nat) (re : lazyTag) (s : string) : list string :=
  match fuel with
  | O => []
  | S fuel' =>
      let i := Index s (open_tag re) in
      if i <? 0 then []
      else
        let inner := drop_bytes (Z.to_nat i + String.length (open_tag re)) s in
        let j := Index inner (close_tag re) in
        if j <? 0 then []
        else
          take_bytes (Z.to_nat j) inner
            :: FindAll_fuel fuel' re
                 (drop_bytes (Z.to_nat j + String.length (close_tag re)) inner)
  end.

Definition FindAllStringSubmatch (re : lazyTag) (s : string) : list string :=
  FindAll_fuel (String.length s) re s.

(** ** Slices, indices and maps with Go's run-time checks *)

Definition index_panic : string := "runtime error: index out of range".
Definition slice_panic : string := "runtime error: slice bounds out of range".

(** [s[i:]] and [s[:j]]. *)
Definition slice_from (s : string) (i : Z) : outcome string :=
  if (i <? 0) || (len s <? i)
  then Panic slice_panic
  else Ret (drop_bytes (Z.to_nat i) s).

Definition slice_to (s : string) (j : Z) : outcome string :=
  if (j <? 0) || (len s <? j)
  then Panic slice_panic
  else Ret (take_bytes (Z.to_nat j) s).

(** [l[i]]. *)
Definition index_at {A : Type} (l : list A) (i : Z) : outcome A :=
  if i <? 0 then Panic index_panic
  else match l !! Z.to_nat i with
       | Some x => Ret x
       | None => Panic index_panic
       end.

(** [m[key]] on a [map[string]int]: the zero value for a missing key. *)
Definition map_index (m : gmap string Z) (key : string) : Z :=
  default 0 (m !! key).

(** ** [fetchCertIDs] *)

Record certID : Type := { name : string; fingerprint : string }.

Definition trustURL : string := "https://support.apple.com/en-us/HT208125".
Definition anchor : string := "<div id=" +:+ dquote +:+ "trusted" +:+ dquote.
Definition label_name : string := "Certificate name".
Definition label_fingerprint : string := "Fingerprint (SHA-256)".

(** Lines 160-163: the text from the anchor up to the next [</div>]. *)
Definition trusted_section (body : string) : outcome string :=
  let text := body in
  let idx := Index text anchor in
  text ← slice_from text idx;
  slice_to text (Index text "</div>").

(** Lines 171-173: the header row fills [cols]. *)
Fixpoint header_loop (i : Z) (matches : list string) (cols : gmap string Z)
  : gmap string Z :=
  match matches with
  | [] => cols
  | m :: rest => header_loop (i + 1) rest (<[m := i]> cols)
  end.

(** Lines 181-185. *)
Definition normalize_fingerprint (fp : string) : string :=
  let fp := ReplaceAll fp "<br>" "" in
  let fp := ReplaceAll fp nl "" in
  let fp := ReplaceAll fp " " "" in
  let fp := ReplaceAll fp "&nbsp;" "" in
  ToLower fp.

(** Lines 167-191: the loop over the rows, [i] being the row's index. *)
Fixpoint rows_loop (i : Z) (rows : list string) (cols : gmap string Z)
    (ids : list certID) : outcome (list certID) :=
  match rows with
  | [] => Ret ids
  | row :: rest =>
      if i =? 0 then
        rows_loop (i + 1) rest
          (header_loop 0 (FindAllStringSubmatch re_th row) cols) ids
      else
        let values := FindAllStringSubmatch re_td row in
        nm ← index_at values (map_index cols label_name);
        let nm := ReplaceAll nm "&nbsp;" "" in
        fp ← index_at values (map_index cols label_fingerprint);
        let fp := normalize_fingerprint fp in
        rows_loop (i + 1) rest cols (ids ++ [{| name := nm; fingerprint := fp |}])
  end.

(** Lines 160-192: from the body that was read to the list of ids. *)
Definition parseCertIDs (body : string) : outcome (list certID) :=
  text ← trusted_section body;
  rows_loop 0 (FindAllStringSubmatch re_tr text) ∅ [].

Definition fetchCertIDs (w : World) : run (list certID) :=
  emit (EvHttpGet trustURL);;
  match http_Get w trustURL with
  | GetFailed err => lift (Fail err)
  | ReadFailed err => lift (Fail err)
  | Body body => lift (parseCertIDs body)
  end.

(** ** [sysCerts], [selectCerts] and [main] *)

Definition security_path : string := "/usr/bin/security".
Definition security_args : list string :=
  ["find-certificate"; "-a"; "-p";
   "/System/Library/Keychains/SystemRootCertificates.keychain"].

Definition allowedCAs_entries : list (string * bool) :=
    [("CN=AddTrust Class 1 CA Root,OU=AddTrust TTP Network,O=AddTrust AB,C=SE", true);
     ("CN=AddTrust External CA Root,OU=AddTrust External TTP Network,O=AddTrust AB,C=SE", true);
     ("CN=COMODO Certification Authority,O=COMODO CA Limited,L=Salford,ST=Greater Manchester,C=GB", true);
     ("CN=COMODO ECC Certification Authority,O=COMODO CA Limited,L=Salford,ST=Greater Manchester,C=GB", true);
     ("CN=COMODO RSA Certification Authority,O=COMODO CA Limited,L=Salford,ST=Greater Manchester,C=GB", true);
     ("CN=DigiCert Global Root CA,OU=www.digicert.com,O=DigiCert Inc,C=US", true);
     ("CN=DigiCert Global Root G2,OU=www.digicert.com,O=DigiCert Inc,C=US", true);
     ("CN=DigiCert Global Root G3,OU=www.digicert.com,O=DigiCert Inc,C=US", true);
     ("CN=DigiCert High Assurance EV Root CA,OU=www.digicert.com,O=DigiCert Inc,C=US", true);
     ("CN=DigiCert Trusted Root G4,OU=www.digicert.com,O=DigiCert Inc,C=US", true);
     ("CN=DST Root CA X3,O=Digital Signature Trust Co.", true);
     ("CN=DST Root CA X4,O=Digital Signature Trust Co.", true);
     ("CN=ISRG Root X1,O=Internet Security Research Group,C=US", true);
     ("CN=GlobalSign Root CA,OU=Root CA,O=GlobalSign nv-sa,C=BE", true);
     ("CN=GlobalSign,OU=GlobalSign ECC Root CA - R4,O=GlobalSign", true);
     ("CN=GlobalSign,OU=GlobalSign ECC Root CA - R5,O=GlobalSign", true);
     ("CN=GlobalSign,OU=GlobalSign Root CA - R2,O=GlobalSign", true);
     ("CN=GlobalSign,OU=GlobalSign Root CA - R3,O=GlobalSign", true);
     ("OU=Go Daddy Class 2 Certification Authority,O=The Go Daddy Group\, Inc.,C=US", true);
     ("CN=Go Daddy Root Certificate Authority - G2,O=GoDaddy.com\, Inc.,L=Scottsdale,ST=Arizona,C=US", true)].

Definition allowedCAs : gmap string bool := list_to_map allowedCAs_entries.

(** [_, ok := allowedCAs[subjectName]]. *)
Definition allowed (subjectName : string) : bool :=
  bool_decide (is_Some (allowedCAs !! subjectName)).

Definition header : string := nl +:+ "package mobile" +:+ nl +:+ nl.

Section Program.
Context `{GoLib}.

(** Lines 136-137: the key under which a certificate is indexed. *)
Definition fingerprintOf (cert : Certificate) : string :=
  EncodeToString (sha256_Sum256 (Raw cert)).

(** Lines 121-138.  [None] when the fuel is used up before the loop is
    left. *)
Fixpoint sysCerts_loop (fuel : nat) (data : string)
    (certs : gmap string Certificate) : option (gmap string Certificate) :=
  if len data <=? 0 then Some certs
  else
    match fuel with
    | O => None
    | S fuel' =>
        match pem_Decode data with
        | (None, _) => Some certs
        | (Some block, data) =>
            if negb (String.eqb (Type_ block) "CERTIFICATE")
               || negb (Z.of_nat (size (Headers block)) =? 0)
            then sysCerts_loop fuel' data certs
            else
              match x509_ParseCertificate (Bytes block) with
              | inl _ => sysCerts_loop fuel' data certs
              | inr cert =>
                  sysCerts_loop fuel' data (<[fingerprintOf cert := cert]> certs)
              end
        end
    end.

Definition sysCerts (w : World) : run (gmap string Certificate) :=
  emit (EvExec security_path security_args);;
  match cmd_Output w security_path security_args with
  | inl err => lift (Fail err)
  | inr data =>
      match sysCerts_loop (String.length data) data ∅ with
      | Some certs => mret certs
      | None => lift Diverge
      end
  end.

(** Line 108. *)
Definition warning (id : certID) : string :=
  "WARNING: cannot find certificate: " +:+ name id
    +:+ " (fingerprint: " +:+ fingerprint id +:+ ")" +:+ nl.

(** Lines 103-111. *)
Fixpoint selectCerts_loop (ids : list certID) (scerts : gmap string Certificate)
    (certs : list Certificate) : run (list Certificate) :=
  match ids with
  | [] => mret certs
  | id :: rest =>
      match scerts !! fingerprint id with
      | Some c => selectCerts_loop rest scerts (certs ++ [c])
      | None =>
          emit (EvStdout (warning id));;
          selectCerts_loop rest scerts certs
      end
  end.

Definition selectCerts (w : World) : run (list Certificate) :=
  ids ← fetchCertIDs w;
  scerts ← sysCerts w;
  selectCerts_loop ids scerts [].

(** Lines 65-80: the loop of [main] over the selected certificates;
    [buf] is the buffer so far. *)
Fixpoint main_loop (certs : list Certificate) (buf : string) : run string :=
  match certs with
  | [] => mret buf
  | cert :: rest =>
      let subjectName := Subject_String cert in
      emit (EvLog subjectName);;
      if allowed subjectName then
        let b := {| Type_ := "CERTIFICATE"; Headers := ∅; Bytes := Raw cert |} in
        match pem_Encode b with
        | inl err => log_Fatal err
        | inr text => main_loop rest (buf +:+ text)
        end
      else main_loop rest buf
  end.

Definition generated_line (out : string) : string :=
  "// Code generated by roots_gen --output " +:+ out +:+ "; DO NOT EDIT." +:+ nl.

(** Lines 59-81: the text assembled in [buf] before it is formatted. *)
Definition assemble (out : string) (certs : list Certificate) : run string :=
  let buf := "" in
  let buf := buf +:+ generated_line out in
  let buf := buf +:+ header in
  let buf := buf +:+ "const systemRootsPEM = `" +:+ nl in
  buf ← main_loop certs buf;
  mret (buf +:+ "`").

Definition main (w : World) : run unit :=
  certs ← match selectCerts w with
          | (t, Fail err) => (t ++ [EvLog err], Exit 1)
          | r => r
          end;
  buf ← assemble (output w) certs;
  match format_Source buf with
  | inl err => log_Fatal ("source format error:" +:+ err)
  | inr source =>
      emit (EvWriteFile (output w) source 420);;
      match ioutil_WriteFile w (output w) source 420 with
      | Some err => log_Fatal err
      | None => mret tt
      end
  end.

End Program.

(** ** The command line

    Package [flag] keeps the values of the flags that were registered.
    [flag.String] registers a flag with its default value and gives the
    pointer to the value; only [flag.Parse] stores what the command line
    says.  Line 51 registers [output] when the package is initialized;
    [main] reads [*output] and calls [flag.Parse] nowhere, so [os.Args]
    never reaches the flag. *)

Definition flag_String (name value usage : string) (flags : gmap string string)
  : gmap string string :=
  <[name := value]> flags.

(** Line 51. *)
Definition package_flags : gmap string string :=
  flag_String "output" "roots_list.go" "file name to write" ∅.

(** [*output], as [main] reads it in a process started with [args]. *)
Definition output_in (args : list string) : string :=
  default "" (package_flags !! "output").

(** The world of a process that is started with the command line [args]
    and gets the answers of [w] from outside. *)
Definition process (args : list string) (w : World) : World := {|
  http_Get := http_Get w;
  cmd_Output := cmd_Output w;
  output := output_in args;
  ioutil_WriteFile := ioutil_WriteFile w
|}.

(** ** Sample inputs

    A small instance of the library and a few worlds, on which the
    program can be run by evaluation. *)

Module Sample.

(** A toy armour: every byte of the store is one block, of type
    [CERTIFICATE] unless the byte is [K]. *)
Definition decode (data : string) : option Block * string :=
  match data with
  | "" => (None, "")
  | String c rest =>
      (Some {| Type_ := if Ascii.eqb c "K" then "RSA PRIVATE KEY" else "CERTIFICATE";
               Headers := ∅;
               Bytes := String c "" |}, rest)
  end.

(** A toy certificate parser: the block [!] is corrupt, the block [d]
    carries an allow-listed subject. *)
Definition parse (der : string) : error + Certificate :=
  if String.eqb der "!" then inl "x509: malformed certificate"
  else inr {| Raw := der;
              Subject_String :=
                if String.eqb der "d"
                then "CN=DST Root CA X3,O=Digital Signature Trust Co."
                else "CN=" +:+ der |}.

Definition encode (b : Block) : error + string :=
  inr ("-----BEGIN " +:+ Type_ b +:+ "-----" +:+ nl +:+ Bytes b +:+ nl
       +:+ "-----END " +:+ Type_ b +:+ "-----" +:+ nl).

#[export] Instance lib : GoLib := {|
  pem_Decode := decode;
  pem_Encode := encode;
  x509_ParseCertificate := parse;
  sha256_Sum256 := λ raw, raw;
  format_Source := λ src, inr src
|}.

(** A world that serves [body] and exports [store]. *)
Definition world (body store out : string) : World := {|
  http_Get := λ _, Body body;
  cmd_Output := λ _ _, inr store;
  output := out;
  ioutil_WriteFile := λ _ _ _, None
|}.

Definition page (table : string) : string :=
  "<html>" +:+ anchor +:+ "><table>" +:+ table +:+ "</table></div></html>".

(** A page without the anchor. *)
Definition page_no_anchor : string := "<html><body>moved</body></html>".

(** A table whose header has no column [Certificate name]: the
    fingerprint comes first, an unexpected label second. *)
Definition table_no_name : string :=
  "<tr><th>Fingerprint (SHA-256)</th><th>Common name</th></tr>"
  +:+ "<tr><td>64</td><td>Root D</td></tr>".

(** A well-formed table with a second data row of one cell only. *)
Definition table_short_row : string :=
  "<tr><th>Certificate name</th><th>Fingerprint (SHA-256)</th></tr>"
  +:+ "<tr><td>Root D</td><td>64</td></tr>"
  +:+ "<tr><td>Root E</td></tr>".

(** A well-formed table that lists the fingerprint [64] twice. *)
Definition table_twice : string :=
  "<tr><th>Certificate name</th><th>Fingerprint (SHA-256)</th></tr>"
  +:+ "<tr><td>Root D</td><td>64</td></tr>"
  +:+ "<tr><td>Root D again</td><td>6 4</td></tr>".

(** A well-formed table of two entries. *)
Definition table_two : string :=
  "<tr><th>Certificate name</th><th>Fingerprint (SHA-256)</th></tr>"
  +:+ "<tr><td>Root D</td><td>64</td></tr>"
  +:+ "<tr><td>Root E</td><td>65</td></tr>".

(** A world in which the export command fails. *)
Definition world_export_failed (body out : string) : World := {|
  http_Get := λ _, Body body;
  cmd_Output := λ _ _, inl "exit status 44";
  output := out;
  ioutil_WriteFile := λ _ _ _, None
|}.

(** A world in which the output file cannot be written. *)
Definition world_read_only (body store out : string) : World := {|
  http_Get := λ _, Body body;
  cmd_Output := λ _ _, inr store;
  output := out;
  ioutil_WriteFile := λ _ _ _, Some "permission denied"
|}.

Definition cert_d : Certificate :=
  {| Raw := "d"; Subject_String := "CN=DST Root CA X3,O=Digital Signature Trust Co." |}.
Definition cert_e : Certificate := {| Raw := "e"; Subject_String := "CN=e" |}.

End Sample.

(** ** Vocabulary of the properties *)

(** [sub] occurs in [s]. *)
Definition contains (s sub : string) : Prop :=
  ∃ pre post, s = pre +:+ sub +:+ post.

(** The number of cells of a data row. *)
Definition cells (row : string) : Z :=
  Z.of_nat (length (FindAllStringSubmatch re_td row)).

(** A data row that is too short for one of the two columns. *)
Definition short_row (cols : gmap string Z) (row : string) : Prop :=
  cells row ≤ map_index cols label_name
  ∨ cells row ≤ map_index cols label_fingerprint.

Section Vocabulary.
Context `{GoLib}.

(** The blocks of a store, in the order in which [pem.Decode] finds
    them. *)
Fixpoint blocks_fuel (fuel : nat) (data : string) : list Block :=
  if len data <=? 0 then []
  else
    match fuel with
    | O => []
    | S fuel' =>
        match pem_Decode data with
        | (None, _) => []
        | (Some block, rest) => block :: blocks_fuel fuel' rest
        end
    end.

Definition blocks (data : string) : list Block :=
  blocks_fuel (String.length data) data.

(** The certificate of a valid block: one of type [CERTIFICATE], without
    headers, whose bytes parse. *)
Definition certificate_of (b : Block) : option Certificate :=
  if decide (Type_ b = "CERTIFICATE" ∧ size (Headers b) = 0%nat)
  then match x509_ParseCertificate (Bytes b) with
       | inr cert => Some cert
       | inl _ => None
       end
  else None.

(** The index of a sequence of certificates: each under its
    fingerprint, a later one replacing an earlier one of the same
    fingerprint. *)
Definition index_of (certs : list Certificate) : gmap string Certificate :=
  foldl (λ m cert, <[fingerprintOf cert := cert]> m) ∅ certs.

(** The entries of the trust list that the index does not know. *)
Definition unmatched (scerts : gmap string Certificate) (ids : list certID)
  : list certID :=
  filter (λ id, scerts !! fingerprint id = None) ids.

(** The certificates of the entries that the index knows. *)
Definition matched (scerts : gmap string Certificate) (ids : list certID)
  : list Certificate :=
  omap (λ id, scerts !! fingerprint id) ids.

(** An index that holds every certificate under its own fingerprint. *)
Definition keyed_by_fingerprint (scerts : gmap string Certificate) : Prop :=
  ∀ k cert, scerts !! k = Some cert → fingerprintOf cert = k.

(** The Subject Allow-List Filter in the words of the specification:
    the subsequence of the records whose subject is in the allow-list. *)
Definition allowListFilter (certs : list Certificate) : list Certificate :=
  filter (λ cert, Subject_String cert ∈ dom allowedCAs) certs.

(** The emission of a sequence of certificates without any filter: the
    PEM encoding of each, in order, behind [buf]. *)
Fixpoint encode_all (certs : list Certificate) (buf : string) : outcome string :=
  match certs with
  | [] => Ret buf
  | cert :: rest =>
      match pem_Encode {| Type_ := "CERTIFICATE"; Headers := ∅; Bytes := Raw cert |} with
      | inl _ => Exit 1
      | inr text => encode_all rest (buf +:+ text)
      end
  end.


End Vocabulary.

(** ** Further vocabulary *)

(** The bytes of a string, as a list. *)
Definition bytes_of (s : string) : list ascii := list_ascii_of_string s.

(** The digits of lower-case hexadecimal, and the upper-case letters of
    ASCII. *)
Definition is_lower_hex (c : ascii) : bool :=
  let n := nat_of_ascii c in
  ((48 <=? n) && (n <=? 57) || (97 <=? n) && (n <=? 102))%nat.

Definition is_ascii (c : ascii) : bool := (nat_of_ascii c <? 128)%nat.

Definition is_upper (c : ascii) : bool :=
  let n := nat_of_ascii c in ((65 <=? n) && (n <=? 90))%nat.

(** The concatenation of a list of texts, without separators. *)
Definition join (texts : list string) : string := foldr String.append "" texts.

(** The block that [main] hands to [pem.Encode] for a certificate. *)
Definition certificate_block (cert : Certificate) : Block :=
  {| Type_ := "CERTIFICATE"; Headers := ∅; Bytes := Raw cert |}.

(** The text of the artifact in front of the certificates. *)
Definition preamble (out : string) : string :=
  "// Code generated by roots_gen --output " +:+ out +:+ "; DO NOT EDIT." +:+ nl
  +:+ header +:+ "const systemRootsPEM = `" +:+ nl.

(** The entry that a data row gives under the columns [cols]: the two
    cells at the indices of the two labels, the name without [&nbsp;] and
    the fingerprint normalized. *)
Definition row_entry (cols : gmap string Z) (row : string) (id : certID) : Prop :=
  ∃ nm fp,
    FindAllStringSubmatch re_td row !! Z.to_nat (map_index cols label_name) = Some nm
    ∧ FindAllStringSubmatch re_td row !! Z.to_nat (map_index cols label_fingerprint)
      = Some fp
    ∧ id = {| name := ReplaceAll nm "&nbsp;" ""; fingerprint := normalize_fingerprint fp |}.

(** A world in which the network fails. *)
Definition world_offline (out : string) : World := {|
  http_Get := λ _, GetFailed "dial tcp: no route to host";
  cmd_Output := λ _ _, inr "d";
  output := out;
  ioutil_WriteFile := λ _ _ _, None
|}.

(** A library whose PEM encoder fails. *)
Definition lib_no_encoder : GoLib := {|
  pem_Decode := Sample.decode;
  pem_Encode := λ _, inl "pem: cannot encode";
  x509_ParseCertificate := Sample.parse;
  sha256_Sum256 := λ raw, raw;
  format_Source := λ src, inr src
|}.

(** * Properties *)

(** ** Substrings and [strings.Index] *)

Lemma HasPrefix_true s p : HasPrefix s p = true ↔ ∃ t, s = p +:+ t.
Proof.
  revert s. induction p as [|c p IH]; intros s; simpl.
  - split; [intros _; by exists s | done].
  - destruct s as [|d s].
    + split; [done | intros [t Ht]; discriminate].
    + destruct (Ascii.eqb c d) eqn:E.
      * apply Ascii.eqb_eq in E as ->. rewrite IH.
        split; intros [t Ht]; exists t; [by rewrite Ht | by injection Ht].
      * apply Ascii.eqb_neq in E.
        split; [done | intros [t Ht]; injection Ht; congruence].
Qed.

Lemma Index_lower s sub : -1 ≤ Index s sub.
Proof.
  induction s as [|c s IH]; simpl.
  - destruct (HasPrefix "" sub); lia.
  - destruct (HasPrefix (String c s) sub); [lia|].
    destruct (Index s sub <? 0) eqn:E; lia.
Qed.

Lemma Index_found s sub : 0 ≤ Index s sub → contains s sub.
Proof.
  induction s as [|c s IH]; simpl.
  - destruct (HasPrefix "" sub) eqn:E; [|lia].
    intros _. apply HasPrefix_true in E as [t Ht]. by exists "", t.
  - destruct (HasPrefix (String c s) sub) eqn:E.
    + intros _. apply HasPrefix_true in E as [t Ht]. by exists "", t.
    + destruct (Index s sub <? 0) eqn:E'; [lia|].
      intros _. apply Z.ltb_ge in E'.
      destruct (IH E') as (pre & post & ->). by exists (String c pre), post.
Qed.

Lemma Index_absent s sub : ¬ contains s sub → Index s sub = -1.
Proof.
  induction s as [|c s IH]; intros Hno; simpl.
  - destruct (HasPrefix "" sub) eqn:E; [|done].
    apply HasPrefix_true in E as [t Ht]. destruct Hno. by exists "", t.
  - destruct (HasPrefix (String c s) sub) eqn:E.
    + apply HasPrefix_true in E as [t Ht]. destruct Hno. by exists "", t.
    + rewrite IH; [done|].
      intros (pre & post & ->). apply Hno. by exists (String c pre), post.
Qed.

Lemma Index_unfold s sub :
  Index s sub =
    if HasPrefix s sub then 0
    else match s with
         | "" => -1
         | String _ s' => if Index s' sub <? 0 then -1 else Index s' sub + 1
         end.
Proof. by destruct s. Qed.

Lemma Index_present s sub : contains s sub → 0 ≤ Index s sub.
Proof.
  intros (pre & post & ->). induction pre as [|c pre IH].
  - rewrite Index_unfold.
    replace (HasPrefix ("" +:+ sub +:+ post) sub) with true; [done|].
    symmetry. apply HasPrefix_true. by exists post.
  - rewrite Index_unfold. destruct (HasPrefix _ sub); [done|]. simpl.
    destruct (Index (pre +:+ sub +:+ post) sub <? 0) eqn:E; [|lia].
    apply Z.ltb_lt in E. lia.
Qed.

(** ** Plumbing of runs *)

Lemma run_bind_ret {A B} (f : A → run B) t a :
  run_bind f (t, Ret a) = (t ++ (f a).1, (f a).2).
Proof. done. Qed.

Lemma run_bind_panic {A B} (f : A → run B) t msg :
  run_bind f (t, Panic msg) = (t, Panic msg).
Proof. done. Qed.

Lemma run_bind_fail {A B} (f : A → run B) t err :
  run_bind f (t, Fail err) = (t, Fail err).
Proof. done. Qed.

Lemma fetchCertIDs_body w body :
  http_Get w trustURL = Body body →
  fetchCertIDs w = ([EvHttpGet trustURL], parseCertIDs body).
Proof. intros Hb. unfold fetchCertIDs. by rewrite Hb. Qed.

Lemma trusted_section_no_anchor body :
  ¬ contains body anchor →
  trusted_section body = Panic slice_panic.
Proof.
  intros Hno. unfold trusted_section, slice_from.
  by rewrite (Index_absent _ _ Hno).
Qed.

Section Runs.
Context `{GoLib}.

(** A panic in [fetchCertIDs] is the end of [selectCerts] and of
    [main]: nothing is caught on the way up. *)
Lemma selectCerts_fetch_panic w t msg :
  fetchCertIDs w = (t, Panic msg) → selectCerts w = (t, Panic msg).
Proof. intros Hf. unfold selectCerts. by rewrite Hf. Qed.

Lemma main_select_panic w t msg :
  selectCerts w = (t, Panic msg) → main w = (t, Panic msg).
Proof. intros Hs. unfold main. by rewrite Hs. Qed.

Lemma main_select_fail w t err :
  selectCerts w = (t, Fail err) → main w = (t ++ [EvLog err], Exit 1).
Proof. intros Hs. unfold main. by rewrite Hs. Qed.

End Runs.

(** ** The parser of the trust list *)

Lemma index_at_cases {A} (l : list A) i :
  index_at l i = Panic index_panic ∨ ∃ x, index_at l i = Ret x.
Proof.
  unfold index_at. destruct (i <? 0); [by left|].
  destruct (l !! Z.to_nat i); [right; eauto | by left].
Qed.

Lemma index_at_short {A} (l : list A) i :
  Z.of_nat (length l) ≤ i → index_at l i = Panic index_panic.
Proof.
  intros Hlen. unfold index_at. destruct (i <? 0); [done|].
  rewrite lookup_ge_None_2; [done | lia].
Qed.

Lemma slice_cases s i :
  (slice_from s i = Panic slice_panic ∨ ∃ t, slice_from s i = Ret t) ∧
  (slice_to s i = Panic slice_panic ∨ ∃ t, slice_to s i = Ret t).
Proof.
  unfold slice_from, slice_to.
  destruct ((i <? 0) || (len s <? i)); split; (by left) || (right; eauto).
Qed.

Lemma trusted_section_cases body :
  trusted_section body = Panic slice_panic ∨ ∃ text, trusted_section body = Ret text.
Proof.
  unfold trusted_section.
  destruct (proj1 (slice_cases body (Index body anchor))) as [-> | [t ->]]; [by left|].
  simpl. apply slice_cases.
Qed.

(** A header row that does not carry [label] leaves the label unbound,
    and the lookup of an unbound label is 0. *)
Lemma header_loop_other i hdr cols label :
  label ∉ hdr → header_loop i hdr cols !! label = cols !! label.
Proof.
  revert i cols. induction hdr as [|m hdr IH]; intros i cols Hno; simpl; [done|].
  apply not_elem_of_cons in Hno as [Hne Hno].
  rewrite IH by done. by rewrite lookup_insert_ne.
Qed.

Lemma map_index_missing hdr label :
  label ∉ hdr → map_index (header_loop 0 hdr ∅) label = 0.
Proof.
  intros Hno. unfold map_index. by rewrite header_loop_other, lookup_empty.
Qed.

(** The loop over the rows ends by a return or by a failed bounds
    check; it has no error of its own to report. *)
Lemma rows_loop_cases rows i cols ids :
  rows_loop i rows cols ids = Panic index_panic
  ∨ ∃ l, rows_loop i rows cols ids = Ret l.
Proof.
  revert i cols ids. induction rows as [|row rows IH]; intros i cols ids; simpl.
  - right; eauto.
  - destruct (i =? 0); [apply IH|].
    destruct (index_at_cases (FindAllStringSubmatch re_td row)
                (map_index cols label_name)) as [-> | [nm ->]]; [by left|].
    simpl.
    destruct (index_at_cases (FindAllStringSubmatch re_td row)
                (map_index cols label_fingerprint)) as [-> | [fp ->]]; [by left|].
    simpl. apply IH.
Qed.

Lemma parseCertIDs_cases body :
  (∃ msg, parseCertIDs body = Panic msg) ∨ ∃ l, parseCertIDs body = Ret l.
Proof.
  unfold parseCertIDs.
  destruct (trusted_section_cases body) as [-> | [text ->]]; [left; by eexists|].
  simpl. destruct (rows_loop_cases (FindAllStringSubmatch re_tr text) 0 ∅ [])
    as [-> | [l ->]]; [left; by eexists | right; by eexists].
Qed.

Lemma rows_loop_short_row rows i cols ids row :
  0 < i → row ∈ rows → short_row cols row →
  rows_loop i rows cols ids = Panic index_panic.
Proof.
  revert i ids. induction rows as [|r rows IH]; intros i ids Hi Hin Hshort.
  - by apply elem_of_nil in Hin.
  - simpl. replace (i =? 0) with false by lia.
    apply elem_of_cons in Hin as [<- | Hin].
    + destruct Hshort as [Hn | Hf].
      * by rewrite (index_at_short _ _ Hn).
      * destruct (index_at_cases (FindAllStringSubmatch re_td row)
                    (map_index cols label_name)) as [-> | [nm ->]]; [done|].
        simpl. by rewrite (index_at_short _ _ Hf).
    + destruct (index_at_cases (FindAllStringSubmatch re_td r)
                  (map_index cols label_name)) as [-> | [nm ->]]; [done|].
      simpl.
      destruct (index_at_cases (FindAllStringSubmatch re_td r)
                  (map_index cols label_fingerprint)) as [-> | [fp ->]]; [done|].
      simpl. apply IH; [lia | done | done].
Qed.

(** With the section found and its rows split into the header row and
    the data rows, the parser is the loop over the data rows under the
    columns of the header. *)
Lemma parseCertIDs_rows body section hdr data :
  trusted_section body = Ret section →
  FindAllStringSubmatch re_tr section = hdr :: data →
  parseCertIDs body
  = rows_loop 1 data (header_loop 0 (FindAllStringSubmatch re_th hdr) ∅) [].
Proof. intros Hs Hr. unfold parseCertIDs. rewrite Hs. simpl. by rewrite Hr. Qed.

(** *** The fuel of the matcher

    With an opening tag that is not empty, any fuel of at least the length
    of the text gives the same matches: [FindAllStringSubmatch] never
    stops for lack of fuel. *)

Lemma drop_bytes_length n s :
  String.length (drop_bytes n s) = (String.length s - n)%nat.
Proof.
  revert s. induction n as [|n IH]; intros [|c s]; simpl; try done.
Qed.

Lemma Index_empty_text sub : sub ≠ "" → Index "" sub = -1.
Proof. by destruct sub. Qed.

Lemma FindAll_fuel_enough re s n m :
  open_tag re ≠ "" →
  (String.length s ≤ n)%nat → (String.length s ≤ m)%nat →
  FindAll_fuel n re s = FindAll_fuel m re s.
Proof.
  intros Hopen. revert s m.
  assert (∀ k, FindAll_fuel k re "" = []) as Hnil.
  { intros [|k]; [done|]. cbn [FindAll_fuel]. by rewrite Index_empty_text. }
  induction n as [|n IH]; intros s m Hn Hm.
  - destruct s; simpl in Hn; [|lia]. by rewrite !Hnil.
  - destruct m as [|m].
    + destruct s; simpl in Hm; [|lia]. by rewrite !Hnil.
    + destruct s as [|c s]; [by rewrite !Hnil|]. cbn [FindAll_fuel].
      destruct (Index (String c s) (open_tag re) <? 0); [done|].
      destruct (Index _ (close_tag re) <? 0); [done|].
      f_equal. destruct (open_tag re) as [|o op]; [done|].
      apply IH; rewrite !drop_bytes_length; simpl in *; lia.
Qed.

Example rows_of_sample_table :
  FindAllStringSubmatch re_tr Sample.table_two
  = ["<th>Certificate name</th><th>Fingerprint (SHA-256)</th>";
     "<td>Root D</td><td>64</td>";
     "<td>Root E</td><td>65</td>"].
Proof. reflexivity. Qed.

Example ids_of_sample_page :
  parseCertIDs (Sample.page Sample.table_two)
  = Ret [{| name := "Root D"; fingerprint := "64" |};
         {| name := "Root E"; fingerprint := "65" |}].
Proof. vm_compute. reflexivity. Qed.

Example normalize_sample :
  normalize_fingerprint ("AB CD<br>" +:+ nl +:+ "EF&nbsp;01") = "abcdef01".
Proof. reflexivity. Qed.

Section Parser_claims.
Context `{GoLib}.

(** C1 (as amended): when the body that was fetched does not contain the
    anchor [<div id="trusted"], [fetchCertIDs] does not return an error:
    [strings.Index] gives -1 and the slice expression [text[idx:]]
    panics.  The panic is caught nowhere, so [main] ends with it (exit
    status 2) right after the fetch: the export command is not started
    and no file is written. *)
Theorem missing_anchor_panics w body :
  http_Get w trustURL = Body body →
  ¬ contains body anchor →
  fetchCertIDs w = ([EvHttpGet trustURL], Panic slice_panic)
  ∧ main w = ([EvHttpGet trustURL], Panic slice_panic)
  ∧ exit_code (main w).2 = Some 2
  ∧ execs (main w).1 = []
  ∧ writes (main w).1 = [].
Proof.
  intros Hb Hno.
  assert (fetchCertIDs w = ([EvHttpGet trustURL], Panic slice_panic)) as Hf.
  { rewrite (fetchCertIDs_body _ _ Hb). unfold parseCertIDs.
    by rewrite trusted_section_no_anchor. }
  assert (main w = ([EvHttpGet trustURL], Panic slice_panic)) as Hm.
  { by apply main_select_panic, selectCerts_fetch_panic. }
  rewrite Hm. done.
Qed.

(** C2 (as amended): the labels of the header row are not checked.  When
    the first row of the table lacks a label, [fetchCertIDs] reports no
    error: the lookup of the label in [cols] gives 0, the zero value of
    a missing key, and the data rows are read under these columns, the
    missing one from the first cell.  After a fetch that succeeded
    [fetchCertIDs] returns no error at all. *)
Theorem missing_label_reads_first_cell w body section hdr data label :
  http_Get w trustURL = Body body →
  trusted_section body = Ret section →
  FindAllStringSubmatch re_tr section = hdr :: data →
  label ∉ FindAllStringSubmatch re_th hdr →
  map_index (header_loop 0 (FindAllStringSubmatch re_th hdr) ∅) label = 0
  ∧ (fetchCertIDs w).2
    = rows_loop 1 data (header_loop 0 (FindAllStringSubmatch re_th hdr) ∅) []
  ∧ ∀ err, (fetchCertIDs w).2 ≠ Fail err.
Proof.
  intros Hb Hs Hr Hno. rewrite (fetchCertIDs_body _ _ Hb). simpl.
  split; [by apply map_index_missing|].
  split; [by apply parseCertIDs_rows with section|].
  intros err. by destruct (parseCertIDs_cases body) as [[msg ->] | [l ->]].
Qed.

(** C6: a data row with fewer cells than one of the two columns needs
    is fatal for the whole run.  The row is not skipped: the index
    expression [values[...]] panics, [fetchCertIDs] returns no list, and
    [main] ends with the panic (exit status 2) before the export command
    is started and without writing a file, whatever the rows before and
    behind the short one are. *)
Theorem short_row_is_fatal w body section hdr data row :
  http_Get w trustURL = Body body →
  trusted_section body = Ret section →
  FindAllStringSubmatch re_tr section = hdr :: data →
  row ∈ data →
  short_row (header_loop 0 (FindAllStringSubmatch re_th hdr) ∅) row →
  fetchCertIDs w = ([EvHttpGet trustURL], Panic index_panic)
  ∧ selectCerts w = ([EvHttpGet trustURL], Panic index_panic)
  ∧ main w = ([EvHttpGet trustURL], Panic index_panic)
  ∧ exit_code (main w).2 = Some 2
  ∧ execs (main w).1 = []
  ∧ writes (main w).1 = [].
Proof.
  intros Hb Hs Hr Hin Hshort.
  assert (fetchCertIDs w = ([EvHttpGet trustURL], Panic index_panic)) as Hf.
  { rewrite (fetchCertIDs_body _ _ Hb), (parseCertIDs_rows _ _ _ _ Hs Hr).
    by rewrite (rows_loop_short_row data 1 _ [] row). }
  pose proof (selectCerts_fetch_panic _ _ _ Hf) as Hsel.
  pose proof (main_select_panic _ _ _ Hsel) as Hm.
  rewrite Hm. done.
Qed.

End Parser_claims.

(** The page without the anchor does not contain it. *)
Lemma page_no_anchor_lacks_anchor : ¬ contains Sample.page_no_anchor anchor.
Proof.
  intros Hc. apply Index_present in Hc. revert Hc. vm_compute.
  intros Hc. by apply Hc.
Qed.

Lemma missing_anchor_panics_witness :
  @main Sample.lib (Sample.world Sample.page_no_anchor "d" "roots_list.go")
  = ([EvHttpGet trustURL], Panic slice_panic).
Proof.
  apply (@missing_anchor_panics Sample.lib
           (Sample.world Sample.page_no_anchor "d" "roots_list.go")
           Sample.page_no_anchor).
  - reflexivity.
  - exact page_no_anchor_lacks_anchor.
Defined.

(** C1, as stated, fails: on a page without the anchor [fetchCertIDs]
    ends by a panic, which is not a returned error. *)
Lemma missing_anchor_not_an_error :
  ¬ contains Sample.page_no_anchor anchor
  ∧ (fetchCertIDs (Sample.world Sample.page_no_anchor "d" "roots_list.go")).2
    = Panic slice_panic
  ∧ ¬ ∃ err,
      (fetchCertIDs (Sample.world Sample.page_no_anchor "d" "roots_list.go")).2
      = Fail err.
Proof.
  split; [exact page_no_anchor_lacks_anchor|].
  split; [by vm_compute|]. intros [err Herr]. vm_compute in Herr. discriminate.
Qed.

Lemma missing_label_reads_first_cell_witness :
  map_index
    (header_loop 0
       (FindAllStringSubmatch re_th
          "<th>Fingerprint (SHA-256)</th><th>Common name</th>") ∅)
    label_name = 0.
Proof.
  apply (@missing_label_reads_first_cell
           (Sample.world (Sample.page Sample.table_no_name) "d" "roots_list.go")
           (Sample.page Sample.table_no_name)
           (anchor +:+ "><table>" +:+ Sample.table_no_name +:+ "</table>")
           "<th>Fingerprint (SHA-256)</th><th>Common name</th>"
           ["<td>64</td><td>Root D</td>"]
           label_name).
  - reflexivity.
  - vm_compute. reflexivity.
  - vm_compute. reflexivity.
  - vm_compute. intros Hin. apply list_elem_of_In in Hin.
    destruct Hin as [Hin | [Hin | []]]; discriminate Hin.
Defined.

(** C2, as stated, fails: the header of this table lacks the label
    [Certificate name], and [fetchCertIDs] returns a list all the same,
    with the name of the entry taken from the first cell of the row (here
    the fingerprint). *)
Lemma missing_label_not_an_error :
  (text ← trusted_section (Sample.page Sample.table_no_name);
   Ret (FindAllStringSubmatch re_th <$> head (FindAllStringSubmatch re_tr text)))
  = Ret (Some ["Fingerprint (SHA-256)"; "Common name"])
  ∧ fetchCertIDs (Sample.world (Sample.page Sample.table_no_name) "d" "roots_list.go")
    = ([EvHttpGet trustURL], Ret [{| name := "64"; fingerprint := "64" |}]).
Proof. split; vm_compute; reflexivity. Qed.

Lemma short_row_is_fatal_witness :
  @main Sample.lib
    (Sample.world (Sample.page Sample.table_short_row) "d" "roots_list.go")
  = ([EvHttpGet trustURL], Panic index_panic).
Proof.
  apply (@short_row_is_fatal Sample.lib
           (Sample.world (Sample.page Sample.table_short_row) "d" "roots_list.go")
           (Sample.page Sample.table_short_row)
           (anchor +:+ "><table>" +:+ Sample.table_short_row +:+ "</table>")
           "<th>Certificate name</th><th>Fingerprint (SHA-256)</th>"
           ["<td>Root D</td><td>64</td>"; "<td>Root E</td>"]
           "<td>Root E</td>").
  - reflexivity.
  - vm_compute. reflexivity.
  - vm_compute. reflexivity.
  - apply list_elem_of_further, list_elem_of_here.
  - right. vm_compute. discriminate.
Defined.

(** ** The reconciler *)

Section Reconciler.
Context `{GoLib}.

(** The loop in closed form, for any certificates collected so far. *)
Lemma selectCerts_loop_closed ids scerts certs :
  selectCerts_loop ids scerts certs
  = ((λ id, EvStdout (warning id)) <$> unmatched scerts ids,
     Ret (certs ++ matched scerts ids)).
Proof.
  revert certs. induction ids as [|id ids IH]; intros certs; simpl.
  - by rewrite app_nil_r.
  - unfold unmatched, matched. rewrite filter_cons. simpl.
    destruct (scerts !! fingerprint id) as [c|] eqn:E.
    + rewrite decide_False by done. rewrite IH.
      by rewrite <- app_assoc.
    + rewrite decide_True by done. rewrite IH. done.
Qed.

Lemma matched_unmatched_length scerts ids :
  (length (matched scerts ids) + length (unmatched scerts ids) = length ids)%nat.
Proof.
  unfold matched, unmatched. induction ids as [|id ids IH]; [done|].
  rewrite filter_cons. simpl.
  destruct (scerts !! fingerprint id) as [c|] eqn:E.
  - rewrite decide_False by done. simpl. f_equal. exact IH.
  - rewrite decide_True by done. simpl. rewrite Nat.add_succ_r. f_equal. exact IH.
Qed.

Lemma stdout_warnings (ids : list certID) :
  stdout ((λ id, EvStdout (warning id)) <$> ids) = warning <$> ids.
Proof. induction ids as [|id ids IH]; [done|]. unfold stdout in *. simpl. by f_equal. Qed.

(** In an index keyed by fingerprint, the fingerprints of the matched
    certificates are fingerprints of the list, in the order of the list. *)
Lemma matched_fingerprints scerts ids :
  keyed_by_fingerprint scerts →
  (fingerprintOf <$> matched scerts ids) `sublist_of` (fingerprint <$> ids).
Proof.
  intros Hk. unfold matched. induction ids as [|id ids IH]; simpl; [done|].
  destruct (scerts !! fingerprint id) as [c|] eqn:E; simpl.
  - rewrite (Hk _ _ E). by apply sublist_skip.
  - by apply sublist_cons.
Qed.

(** [selectCerts] returns whenever its two sources do: the reconciler
    adds no failure of its own. *)
Lemma selectCerts_returns w t1 ids t2 scerts :
  fetchCertIDs w = (t1, Ret ids) →
  sysCerts w = (t2, Ret scerts) →
  (selectCerts w).2 = Ret (matched scerts ids).
Proof.
  intros Hf Hs. unfold selectCerts. rewrite Hf, Hs.
  unfold mbind, run_mbind, run_bind. simpl.
  by rewrite selectCerts_loop_closed.
Qed.

End Reconciler.

Section Reconciler_claims.
Context `{GoLib}.


(** C3 (as amended): when the fingerprints of the entries are pairwise
    distinct and the index holds every certificate under its own
    fingerprint (as the index of [sysCerts] does), the bundle of the
    reconciler has no two entries with the same fingerprint; an entry
    contributes at most one certificate.  Nothing removes duplicates:
    the loop appends the certificate of every entry that hits. *)
Theorem distinct_entries_give_distinct_bundle
    (ids : list certID) (scerts : gmap string Certificate) :
  NoDup (fingerprint <$> ids) →
  keyed_by_fingerprint scerts →
  ∃ certs,
    (selectCerts_loop ids scerts []).2 = Ret certs
    ∧ NoDup (fingerprintOf <$> certs)
    ∧ (length certs ≤ length ids)%nat.
Proof.
  intros Hnd Hk. exists (matched scerts ids).
  rewrite selectCerts_loop_closed. simpl. split; [done|]. split.
  - exact (sublist_NoDup _ _ Hnd (matched_fingerprints scerts ids Hk)).
  - pose proof (matched_unmatched_length scerts ids). lia.
Qed.

End Reconciler_claims.

Lemma distinct_entries_give_distinct_bundle_witness :
  ∃ certs,
    (selectCerts_loop
       [{| name := "Root D"; fingerprint := "64" |};
        {| name := "Root E"; fingerprint := "65" |}]
       {[ "64" := Sample.cert_d ]} []).2 = Ret certs
    ∧ NoDup (@fingerprintOf Sample.lib <$> certs)
    ∧ (length certs ≤ 2)%nat.
Proof.
  apply (@distinct_entries_give_distinct_bundle Sample.lib
           [{| name := "Root D"; fingerprint := "64" |};
            {| name := "Root E"; fingerprint := "65" |}]
           {[ "64" := Sample.cert_d ]}).
  - apply NoDup_cons; split.
    + intros Hin. apply list_elem_of_In in Hin.
      destruct Hin as [Hin | []]; discriminate Hin.
    + apply NoDup_singleton.
  - intros k cert Hl. apply lookup_singleton_Some in Hl as [<- <-]. reflexivity.
Defined.

(** C3, as stated, fails: a trust list that names the fingerprint [64]
    twice gives a bundle with the certificate of that fingerprint twice,
    at the reconciler and through the whole of [selectCerts]. *)
Lemma repeated_entry_repeats_certificate :
  (selectCerts_loop
     [{| name := "Root D"; fingerprint := "64" |};
      {| name := "Root D again"; fingerprint := "64" |}]
     {[ "64" := Sample.cert_d ]} []).2
  = Ret [Sample.cert_d; Sample.cert_d]
  ∧ (@selectCerts Sample.lib
       (Sample.world (Sample.page Sample.table_twice) "d" "roots_list.go")).2
    = Ret [Sample.cert_d; Sample.cert_d]
  ∧ ¬ NoDup (@fingerprintOf Sample.lib <$> [Sample.cert_d; Sample.cert_d]).
Proof.
  split; [by vm_compute|]. split; [by vm_compute|].
  intros Hnd. apply NoDup_cons in Hnd as [Hnotin _].
  apply Hnotin, list_elem_of_here.
Qed.

(** ** The index of the local store *)

Section Index_builder.
Context `{GoLib}.

Local Abbreviation add_cert :=
  (λ (m : gmap string Certificate) cert, <[fingerprintOf cert := cert]> m).

(** The test of line 127 lets through the blocks of type [CERTIFICATE]
    that have no headers, and no others. *)
Lemma skip_test_false (b : Block) :
  negb (String.eqb (Type_ b) "CERTIFICATE")
  || negb (Z.of_nat (size (Headers b)) =? 0) = false
  ↔ Type_ b = "CERTIFICATE" ∧ size (Headers b) = 0%nat.
Proof.
  rewrite orb_false_iff, !negb_false_iff, String.eqb_eq, Z.eqb_eq.
  split; intros [Ht Hs]; (split; [done | lia]).
Qed.

Lemma certificate_of_skipped (b : Block) :
  negb (String.eqb (Type_ b) "CERTIFICATE")
  || negb (Z.of_nat (size (Headers b)) =? 0) = true →
  certificate_of b = None.
Proof.
  intros Hskip. unfold certificate_of. case_decide as Hv; [|done].
  apply skip_test_false in Hv. congruence.
Qed.

Lemma certificate_of_kept (b : Block) :
  negb (String.eqb (Type_ b) "CERTIFICATE")
  || negb (Z.of_nat (size (Headers b)) =? 0) = false →
  certificate_of b
  = match x509_ParseCertificate (Bytes b) with
    | inr cert => Some cert
    | inl _ => None
    end.
Proof.
  intros Hkeep. unfold certificate_of. apply skip_test_false in Hkeep.
  by rewrite decide_True.
Qed.

(** With enough fuel the loop of [sysCerts] is left, and what it has
    built is the index of the valid blocks, added to what it started
    from. *)
Lemma sysCerts_loop_blocks fuel data certs :
  pem_Decode_consumes →
  (String.length data ≤ fuel)%nat →
  sysCerts_loop fuel data certs
  = Some (foldl add_cert certs (omap certificate_of (blocks_fuel fuel data))).
Proof.
  intros Hcons. revert data certs.
  induction fuel as [|fuel IH]; intros data certs Hlen; simpl.
  - replace (len data <=? 0) with true; [done|]. unfold len. lia.
  - destruct (len data <=? 0); [done|].
    destruct (pem_Decode data) as [[b|] rest] eqn:Hdec; [|done].
    pose proof (Hcons _ _ _ Hdec) as Hshort.
    destruct (negb (String.eqb (Type_ b) "CERTIFICATE")
              || negb (Z.of_nat (size (Headers b)) =? 0)) eqn:Htest.
    + simpl. rewrite (certificate_of_skipped _ Htest). apply IH. lia.
    + simpl. rewrite (certificate_of_kept _ Htest).
      destruct (x509_ParseCertificate (Bytes b)) as [err|cert];
        simpl; apply IH; lia.
Qed.

(** What is bound in a grown index is bound to a certificate that was
    added, under its fingerprint, or was bound before. *)
Lemma foldl_add_cert_lookup certs (m : gmap string Certificate) k cert :
  foldl add_cert m certs !! k = Some cert →
  (cert ∈ certs ∧ k = fingerprintOf cert) ∨ m !! k = Some cert.
Proof.
  revert m. induction certs as [|c certs IH]; intros m; simpl; [by right|].
  intros Hl. destruct (IH _ Hl) as [[Hin ->] | Hm].
  - left. split; [by apply list_elem_of_further | done].
  - destruct (decide (fingerprintOf c = k)) as [<- | Hne].
    + rewrite lookup_insert_eq in Hm. injection Hm as ->.
      left. split; [apply list_elem_of_here | done].
    + rewrite lookup_insert_ne in Hm by done. by right.
Qed.



Lemma index_of_keyed certs : keyed_by_fingerprint (index_of certs).
Proof.
  intros k cert Hl. apply foldl_add_cert_lookup in Hl as [[_ ->] | Hl]; [done|].
  by rewrite lookup_empty in Hl.
Qed.

(** A failure of the export command is the error of [sysCerts]. *)
Lemma sysCerts_export_failed w err :
  cmd_Output w security_path security_args = inl err →
  sysCerts w = ([EvExec security_path security_args], Fail err).
Proof. intros Hc. unfold sysCerts. by rewrite Hc. Qed.

Lemma sysCerts_export_read w data :
  pem_Decode_consumes →
  cmd_Output w security_path security_args = inr data →
  sysCerts w
  = ([EvExec security_path security_args],
     Ret (index_of (omap certificate_of (blocks data)))).
Proof.
  intros Hcons Hc. unfold sysCerts. rewrite Hc.
  by rewrite (sysCerts_loop_blocks _ _ _ Hcons).
Qed.

End Index_builder.

Section Index_builder_claims.
Context `{GoLib}.


End Index_builder_claims.

(** The toy decoder consumes what it decodes. *)
Lemma sample_decode_consumes : @pem_Decode_consumes Sample.lib.
Proof.
  intros data block rest. destruct data as [|c data]; simpl; [done|].
  intros [= _ <-]. lia.
Qed.


(** ** The allow-list and the emission *)

Lemma string_app_cons c (s t : string) : String c s +:+ t = String c (s +:+ t).
Proof. reflexivity. Qed.

Lemma string_app_assoc (s1 s2 s3 : string) :
  (s1 +:+ s2) +:+ s3 = s1 +:+ s2 +:+ s3.
Proof.
  induction s1 as [|c s1 IH]; [done|]. rewrite !string_app_cons. by rewrite IH.
Qed.

Lemma string_app_nil_r (s : string) : s +:+ "" = s.
Proof. induction s as [|c s IH]; [done|]. rewrite string_app_cons. by rewrite IH. Qed.

Lemma string_app_length (s1 s2 : string) :
  String.length (s1 +:+ s2) = (String.length s1 + String.length s2)%nat.
Proof.
  induction s1 as [|c s1 IH]; [done|]. rewrite string_app_cons. simpl. by rewrite IH.
Qed.

Lemma string_app_cancel_r (s1 s2 t : string) :
  s1 +:+ t = s2 +:+ t → s1 = s2.
Proof.
  revert s2. induction s1 as [|c s1 IH]; intros [|d s2] Heq.
  - done.
  - apply (f_equal String.length) in Heq.
    rewrite !string_app_length in Heq. simpl in Heq. lia.
  - apply (f_equal String.length) in Heq.
    rewrite !string_app_length in Heq. simpl in Heq. lia.
  - rewrite !string_app_cons in Heq. injection Heq as -> Heq. f_equal. by apply IH.
Qed.

(** The keys of the allow-list are the subjects written in its literal. *)
Lemma allowed_spec (subjectName : string) :
  allowed subjectName = true ↔ subjectName ∈ dom allowedCAs.
Proof. unfold allowed. by rewrite bool_decide_eq_true, elem_of_dom. Qed.

Lemma allowedCAs_keys (subjectName : string) :
  subjectName ∈ dom allowedCAs ↔ subjectName ∈ allowedCAs_entries.*1.
Proof. unfold allowedCAs. rewrite dom_list_to_map_L. apply elem_of_list_to_set. Qed.

(** The allow-list is looked at through these two lemmas only. *)
#[global] Opaque allowedCAs.
Arguments allowed : simpl never.

Section Emission.
Context `{GoLib}.

Lemma allowListFilter_cons cert certs :
  allowListFilter (cert :: certs)
  = if allowed (Subject_String cert)
    then cert :: allowListFilter certs
    else allowListFilter certs.
Proof.
  unfold allowListFilter. rewrite filter_cons.
  destruct (allowed (Subject_String cert)) eqn:E.
  - apply allowed_spec in E. by rewrite decide_True.
  - rewrite decide_False; [done|]. intros Hin. apply allowed_spec in Hin. congruence.
Qed.

(** The loop of [main] ends as the emission of the filtered sequence
    does: a certificate that is not allow-listed leaves no byte. *)
Lemma main_loop_filter certs buf :
  (main_loop certs buf).2 = encode_all (allowListFilter certs) buf.
Proof.
  revert buf. induction certs as [|cert certs IH]; intros buf; [done|].
  rewrite allowListFilter_cons. simpl.
  destruct (allowed (Subject_String cert)); simpl.
  - destruct (pem_Encode _) as [err|text]; simpl; [done | apply IH].
  - apply IH.
Qed.

(** The loop writes no file and starts no command. *)
Lemma main_loop_quiet certs buf :
  writes (main_loop certs buf).1 = [] ∧ execs (main_loop certs buf).1 = [].
Proof.
  revert buf. induction certs as [|cert certs IH]; intros buf; [done|].
  simpl. destruct (allowed (Subject_String cert)); simpl.
  - destruct (pem_Encode _) as [err|text]; simpl; [done | apply IH].
  - apply IH.
Qed.

Lemma allowListFilter_idempotent certs :
  allowListFilter (allowListFilter certs) = allowListFilter certs.
Proof.
  induction certs as [|cert certs IH]; [done|].
  rewrite allowListFilter_cons.
  destruct (allowed (Subject_String cert)) eqn:E; [|done].
  by rewrite allowListFilter_cons, E, IH.
Qed.

(** The emission only appends: what it adds to the buffer does not
    depend on the buffer. *)
Lemma encode_all_app certs buf :
  encode_all certs buf
  = match encode_all certs "" with
    | Ret text => Ret (buf +:+ text)
    | o => o
    end.
Proof.
  revert buf. induction certs as [|cert certs IH]; intros buf; simpl.
  - by rewrite string_app_nil_r.
  - destruct (pem_Encode _) as [err|text]; [done|].
    rewrite IH, (IH ("" +:+ text)). simpl.
    destruct (encode_all certs ""); try done. by rewrite string_app_assoc.
Qed.

(** What the emission appends is decided by the raw bytes alone. *)
Lemma encode_all_raw certs1 certs2 buf :
  Raw <$> certs1 = Raw <$> certs2 →
  encode_all certs1 buf = encode_all certs2 buf.
Proof.
  revert certs2 buf. induction certs1 as [|c1 certs1 IH];
    intros [|c2 certs2] buf Heq; try done.
  simpl in *. injection Heq as -> Heq.
  destruct (pem_Encode _) as [err|text]; [done | by apply IH].
Qed.

(** The text before the certificates. *)
Lemma assemble_closed out certs :
  (assemble out certs).2
  = match encode_all (allowListFilter certs) "" with
    | Ret text =>
        Ret (generated_line out +:+ header +:+ "const systemRootsPEM = `" +:+ nl
             +:+ text +:+ "`")
    | o => o
    end.
Proof.
  unfold assemble. simpl.
  pose proof (main_loop_filter certs
    ((generated_line out +:+ header) +:+ "const systemRootsPEM = `" +:+ nl)) as Hl.
  unfold mbind, run_mbind, run_bind.
  destruct (main_loop certs _) as [t o]. simpl in *. rewrite encode_all_app in Hl.
  destruct (encode_all (allowListFilter certs) "") as [text| | | |]; subst o; simpl; try done.
  by rewrite !string_app_assoc.
Qed.

End Emission.

(** ** The whole run *)

Lemma writes_app t1 t2 : writes (t1 ++ t2) = writes t1 ++ writes t2.
Proof. apply omap_app. Qed.

Lemma execs_app t1 t2 : execs (t1 ++ t2) = execs t1 ++ execs t2.
Proof. apply omap_app. Qed.

Lemma writes_warnings (ids : list certID) :
  writes ((λ id, EvStdout (warning id)) <$> ids) = [].
Proof. induction ids as [|id ids IH]; [done|]. exact IH. Qed.

Section Whole_run.
Context `{GoLib}.

(** [selectCerts] reads the two answers of the world and nothing else. *)
Lemma selectCerts_inputs w1 w2 :
  http_Get w1 trustURL = http_Get w2 trustURL →
  cmd_Output w1 security_path security_args
  = cmd_Output w2 security_path security_args →
  selectCerts w1 = selectCerts w2.
Proof.
  intros Hh Hc. unfold selectCerts, fetchCertIDs, sysCerts. by rewrite Hh, Hc.
Qed.

(** [selectCerts] writes no file. *)
Lemma selectCerts_quiet w : writes (selectCerts w).1 = [].
Proof.
  unfold selectCerts, fetchCertIDs, sysCerts.
  destruct (http_Get w trustURL) as [err|err|body]; try done.
  destruct (parseCertIDs body) as [ids| | | |]; try done.
  destruct (cmd_Output w security_path security_args) as [err|data]; try done.
  destruct (sysCerts_loop _ _ _) as [scerts|]; try done.
  unfold mbind, run_mbind, run_bind, emit, lift, mret, run_ret. simpl.
  rewrite selectCerts_loop_closed. simpl. apply writes_warnings.
Qed.

(** [assemble] writes no file. *)
Lemma assemble_quiet out certs : writes (assemble out certs).1 = [].
Proof.
  unfold assemble. simpl.
  pose proof (main_loop_quiet certs
    ((generated_line out +:+ header) +:+ "const systemRootsPEM = `" +:+ nl)) as [Hw _].
  unfold mbind, run_mbind, run_bind.
  destruct (main_loop certs _) as [t [buf| | | |]]; simpl in *;
    rewrite ?writes_app, ?Hw; done.
Qed.

(** A failure of the network or of the export is the error of
    [selectCerts]. *)
Lemma selectCerts_network_failure w err :
  http_Get w trustURL = GetFailed err ∨ http_Get w trustURL = ReadFailed err →
  selectCerts w = ([EvHttpGet trustURL], Fail err).
Proof. intros [Hg | Hg]; unfold selectCerts, fetchCertIDs; by rewrite Hg. Qed.

Lemma selectCerts_export_failure w body ids err :
  http_Get w trustURL = Body body →
  parseCertIDs body = Ret ids →
  cmd_Output w security_path security_args = inl err →
  selectCerts w
  = ([EvHttpGet trustURL; EvExec security_path security_args], Fail err).
Proof.
  intros Hb Hp Hc. unfold selectCerts.
  rewrite (fetchCertIDs_body _ _ Hb), Hp, (sysCerts_export_failed _ _ Hc). done.
Qed.

(** Every file [main] writes is the one named by the flag, is the only
    one, and holds the formatted text of a buffer that was assembled in
    full from the selected certificates. *)
Lemma main_writes_shape w file data :
  (file, data) ∈ writes (main w).1 →
  file = output w
  ∧ writes (main w).1 = [(file, data)]
  ∧ ∃ certs buf,
      (selectCerts w).2 = Ret certs
      ∧ (assemble (output w) certs).2 = Ret buf
      ∧ format_Source buf = inr data.
Proof.
  pose proof (selectCerts_quiet w) as Hs. unfold main.
  destruct (selectCerts w) as [t [certs|err|msg|code|]]; simpl in *;
    unfold mbind, run_mbind, run_bind; simpl;
    rewrite ?writes_app, ?Hs; simpl;
    try (intros Hin; by apply elem_of_nil in Hin).
  pose proof (assemble_quiet (output w) certs) as Ha.
  destruct (assemble (output w) certs) as [t2 [buf|err|msg|code|]] eqn:Hasm;
    simpl in *; rewrite ?writes_app, ?Hs, ?Ha; simpl;
    try (intros Hin; by apply elem_of_nil in Hin).
  destruct (format_Source buf) as [err|source] eqn:Hfmt; simpl;
    rewrite ?writes_app, ?Hs, ?Ha; simpl;
    try (intros Hin; by apply elem_of_nil in Hin).
  destruct (ioutil_WriteFile w (output w) source 420); simpl;
    intros Hin; apply list_elem_of_singleton in Hin; injection Hin as -> ->;
    (split; [done|]); (split; [done|]); exists certs, buf; by rewrite Hasm.
Qed.


End Whole_run.

Section Emission_claims.
Context `{GoLib}.

(** C7: the allow-list filter is the subsequence of the allow-listed
    records.  The loop of [main] emits exactly the records of
    [allowListFilter], the subsequence of its input whose subject is, by
    equality of strings, one of the subjects of the allow-list, in the
    order of the input; filtering twice is filtering once, for the
    sequence and for what the loop emits. *)
Theorem allow_list_filter_subsequence (certs : list Certificate) (buf : string) :
  (main_loop certs buf).2 = encode_all (allowListFilter certs) buf
  ∧ allowListFilter certs `sublist_of` certs
  ∧ (∀ cert, cert ∈ allowListFilter certs
             ↔ cert ∈ certs ∧ Subject_String cert ∈ allowedCAs_entries.*1)
  ∧ allowListFilter (allowListFilter certs) = allowListFilter certs
  ∧ (main_loop (allowListFilter certs) buf).2 = (main_loop certs buf).2.
Proof.
  split; [apply main_loop_filter|]. split; [apply sublist_filter|]. split.
  - intros cert. unfold allowListFilter.
    rewrite list_elem_of_filter, allowedCAs_keys. tauto.
  - split; [apply allowListFilter_idempotent|].
    by rewrite !main_loop_filter, allowListFilter_idempotent.
Qed.

(** C8: the artifact is decided by its inputs.  Two runs that get the
    same answer from the network and from the export command and the same
    [-output] flag write the same bytes to the same file, whatever else
    differs between them; and the text that is assembled for a sequence
    of certificates is decided by the flag and by the raw bytes of the
    allow-listed certificates, in order: nothing of the run itself, such
    as a time, enters it. *)
Theorem artifact_is_deterministic w1 w2 certs1 certs2 out :
  http_Get w1 trustURL = http_Get w2 trustURL →
  cmd_Output w1 security_path security_args
  = cmd_Output w2 security_path security_args →
  output w1 = output w2 →
  Raw <$> allowListFilter certs1 = Raw <$> allowListFilter certs2 →
  writes (main w1).1 = writes (main w2).1
  ∧ (assemble out certs1).2 = (assemble out certs2).2.
Proof.
  intros Hh Hc Ho Hraw. split.
  - unfold main. rewrite (selectCerts_inputs _ _ Hh Hc), Ho.
    destruct (selectCerts w2) as [t [certs|err|msg|code|]]; simpl;
      unfold mbind, run_mbind, run_bind; simpl; try done.
    destruct (assemble (output w2) certs) as [t2 [buf|err|msg|code|]]; simpl;
      try done.
    destruct (format_Source buf) as [err|source]; simpl; [done|].
    rewrite !writes_app.
    by destruct (ioutil_WriteFile w1 _ _ _), (ioutil_WriteFile w2 _ _ _).
  - by rewrite !assemble_closed, (encode_all_raw _ _ _ Hraw).
Qed.


End Emission_claims.

(** ** The output flag *)

Lemma process_output args w : output (process args w) = "roots_list.go".
Proof. reflexivity. Qed.

Section Output_flag.
Context `{GoLib}.

(** C10: the code at the failing input.  The flag [output] is registered
    with the usage [file name to write], and the first line of the text
    names [*output]; but [main] never calls [flag.Parse], so in a process
    started with any command line [*output] is the default
    [roots_list.go].  Two processes that differ in their command lines
    only, such as [--output a.go] and [--output b.go], run alike: every
    file that is written is [roots_list.go], and its text is the
    formatted text of a buffer that starts with the line naming
    [roots_list.go].  The option changes neither the content nor the
    place of the artifact. *)
Theorem output_option_is_ignored (args1 args2 : list string) (w : World) :
  output (process args1 w) = "roots_list.go"
  ∧ main (process args1 w) = main (process args2 w)
  ∧ ∀ file data,
      (file, data) ∈ writes (main (process args1 w)).1 →
      file = "roots_list.go"
      ∧ ∃ certs buf,
          (assemble "roots_list.go" certs).2 = Ret buf
          ∧ HasPrefix buf (generated_line "roots_list.go") = true
          ∧ format_Source buf = inr data.
Proof.
  split; [done|]. split; [done|]. intros file data Hin.
  destruct (main_writes_shape _ _ _ Hin) as (-> & _ & certs & buf & _ & Ha & Hf).
  rewrite process_output in *. split; [done|]. exists certs, buf.
  split; [done|]. split; [|done].
  rewrite assemble_closed in Ha.
  destruct (encode_all (allowListFilter certs) "") as [text| | | |]; try done.
  injection Ha as <-. apply HasPrefix_true. eauto.
Qed.

End Output_flag.

(** The command line [roots_gen --output other.go], on the page of two
    entries and the store [a!dK]: the file is [roots_list.go] and its
    first line names [roots_list.go]. *)
Example output_option_other_go :
  writes (@main Sample.lib
            (process ["roots_gen"; "--output"; "other.go"]
               (Sample.world (Sample.page Sample.table_two) "a!dK" ""))).1
  = [("roots_list.go",
      "// Code generated by roots_gen --output roots_list.go; DO NOT EDIT." +:+ nl
      +:+ header +:+ "const systemRootsPEM = `" +:+ nl
      +:+ "-----BEGIN CERTIFICATE-----" +:+ nl +:+ "d" +:+ nl
      +:+ "-----END CERTIFICATE-----" +:+ nl +:+ "`")].
Proof. vm_compute. reflexivity. Qed.

(** Two runs on the same page and the same store, the second of which
    cannot write its file, with two sequences that differ in a
    certificate outside the allow-list. *)
Lemma artifact_is_deterministic_witness :
  writes (@main Sample.lib
            (Sample.world (Sample.page Sample.table_two) "a!dKe" "roots_list.go")).1
  = writes (@main Sample.lib
              (Sample.world_read_only (Sample.page Sample.table_two) "a!dKe"
                 "roots_list.go")).1
  ∧ (@assemble Sample.lib "roots_list.go" [Sample.cert_d; Sample.cert_e]).2
    = (@assemble Sample.lib "roots_list.go" [Sample.cert_d]).2.
Proof.
  apply (@artifact_is_deterministic Sample.lib
           (Sample.world (Sample.page Sample.table_two) "a!dKe" "roots_list.go")
           (Sample.world_read_only (Sample.page Sample.table_two) "a!dKe"
              "roots_list.go")
           [Sample.cert_d; Sample.cert_e] [Sample.cert_d] "roots_list.go").
  - reflexivity.
  - reflexivity.
  - reflexivity.
  - vm_compute. reflexivity.
Defined.


(** * Further properties of the program *)

(** ** More on substrings *)

Lemma take_bytes_length n s : (String.length (take_bytes n s) ≤ n)%nat.
Proof.
  revert s. induction n as [|n IH]; intros [|c s]; simpl; try lia.
  specialize (IH s). lia.
Qed.

Lemma take_drop_bytes n s : take_bytes n s +:+ drop_bytes n s = s.
Proof.
  revert s. induction n as [|n IH]; intros [|c s]; try done.
  simpl. rewrite string_app_cons. by rewrite IH.
Qed.

Lemma drop_bytes_app s t : drop_bytes (String.length s) (s +:+ t) = t.
Proof. induction s as [|c s IH]; [done|]. rewrite string_app_cons. exact IH. Qed.

Lemma drop_bytes_add n m s : drop_bytes (n + m) s = drop_bytes m (drop_bytes n s).
Proof.
  revert s. induction n as [|n IH]; intros s; [done|].
  destruct s as [|c s]; simpl; [by destruct m | apply IH].
Qed.

Lemma contains_app_l p s sub : contains s sub → contains (p +:+ s) sub.
Proof.
  intros (pre & post & ->). exists (p +:+ pre), post. by rewrite string_app_assoc.
Qed.

Lemma contains_app_r s q sub : contains s sub → contains (s +:+ q) sub.
Proof.
  intros (pre & post & ->). exists pre, (post +:+ q). by rewrite !string_app_assoc.
Qed.

(** [Index] gives the first instance: no instance starts before it. *)
Lemma Index_first pre sub post :
  Index (pre +:+ sub +:+ post) sub ≤ Z.of_nat (String.length pre).
Proof.
  induction pre as [|c pre IH].
  - rewrite Index_unfold.
    replace (HasPrefix ("" +:+ sub +:+ post) sub) with true; [done|].
    symmetry. apply HasPrefix_true. by exists post.
  - rewrite string_app_cons, Index_unfold.
    destruct (HasPrefix _ sub); [simpl; lia|].
    destruct (Index (pre +:+ sub +:+ post) sub <? 0) eqn:E; simpl String.length; lia.
Qed.

(** At a found index the text splits into what is in front, the
    instance and what is behind. *)
Lemma Index_split s sub :
  0 ≤ Index s sub →
  s = take_bytes (Z.to_nat (Index s sub)) s +:+ sub
      +:+ drop_bytes (Z.to_nat (Index s sub) + String.length sub) s.
Proof.
  induction s as [|c s IH]; rewrite Index_unfold.
  - destruct (HasPrefix "" sub) eqn:E; [|lia]. intros _.
    apply HasPrefix_true in E as [t Ht]. destruct sub; [done | discriminate].
  - destruct (HasPrefix (String c s) sub) eqn:E.
    + intros _. apply HasPrefix_true in E as [t Ht].
      assert (drop_bytes (String.length sub) (String c s) = t) as Hd.
      { rewrite Ht. apply drop_bytes_app. }
      change (String c s = sub +:+ drop_bytes (String.length sub) (String c s)).
      by rewrite Hd.
    + destruct (Index s sub <? 0) eqn:E'; [lia|]. intros _.
      apply Z.ltb_ge in E'.
      replace (Z.to_nat (Index s sub + 1)) with (S (Z.to_nat (Index s sub))) by lia.
      simpl. rewrite string_app_cons. f_equal. by apply IH.
Qed.

(** What stands in front of the first instance holds no instance. *)
Lemma take_before_Index s sub :
  sub ≠ "" → 0 ≤ Index s sub →
  ¬ contains (take_bytes (Z.to_nat (Index s sub)) s) sub.
Proof.
  intros Hsub Hi (pre & post & Heq).
  pose proof (take_bytes_length (Z.to_nat (Index s sub)) s) as Hlen.
  rewrite Heq, !string_app_length in Hlen.
  pose proof (Index_first pre sub (post +:+ drop_bytes (Z.to_nat (Index s sub)) s)) as Hf.
  rewrite <- !string_app_assoc in Hf. rewrite !string_app_assoc in Hf.
  replace (pre +:+ sub +:+ post +:+ drop_bytes (Z.to_nat (Index s sub)) s)
    with s in Hf.
  - destruct sub; [done|]. simpl in Hlen. lia.
  - rewrite <- (take_drop_bytes (Z.to_nat (Index s sub)) s) at 1.
    by rewrite Heq, !string_app_assoc.
Qed.

(** At a found index the rest of the text starts with the instance. *)
Lemma drop_at_Index s sub :
  0 ≤ Index s sub → HasPrefix (drop_bytes (Z.to_nat (Index s sub)) s) sub = true.
Proof.
  induction s as [|c s IH]; rewrite Index_unfold.
  - by destruct (HasPrefix "" sub) eqn:E.
  - destruct (HasPrefix (String c s) sub) eqn:E; [done|].
    destruct (Index s sub <? 0) eqn:E'; [lia|]. intros _.
    apply Z.ltb_ge in E'.
    replace (Z.to_nat (Index s sub + 1)) with (S (Z.to_nat (Index s sub))) by lia.
    simpl. by apply IH.
Qed.

Lemma Index_upper s sub : Index s sub ≤ len s.
Proof.
  unfold len. induction s as [|c s IH]; rewrite Index_unfold.
  - destruct (HasPrefix "" sub); simpl; lia.
  - destruct (HasPrefix (String c s) sub); [lia|].
    destruct (Index s sub <? 0); simpl String.length; lia.
Qed.

(** Where the text does not start with an instance, the first instance
    is one byte further than in the rest of the text. *)
Lemma Index_step c s sub :
  HasPrefix (String c s) sub = false →
  0 ≤ Index (String c s) sub →
  0 ≤ Index s sub ∧ Index (String c s) sub = Index s sub + 1.
Proof.
  intros Hp. rewrite Index_unfold, Hp.
  destruct (Index s sub <? 0) eqn:E; [lia|]. apply Z.ltb_ge in E. lia.
Qed.

(** ** More on the parser of the trust list *)

(** X1: the group of a match is lazy.  For a pattern with a closing tag
    that is not empty, every match that [FindAllStringSubmatch] returns
    stands in the text between the opening and the closing tag, and holds
    no closing tag itself: a row never runs past its own [</tr>], a cell
    never past its own [</td>]. *)
Theorem matches_are_lazy re s m :
  close_tag re ≠ "" →
  m ∈ FindAllStringSubmatch re s →
  ¬ contains m (close_tag re)
  ∧ contains s (open_tag re +:+ m +:+ close_tag re).
Proof.
  intros Hclose. unfold FindAllStringSubmatch.
  generalize (String.length s) as fuel. intros fuel. revert s.
  induction fuel as [|fuel IH]; intros s Hin; simpl in Hin.
  - by apply elem_of_nil in Hin.
  - destruct (Index s (open_tag re) <? 0) eqn:Ei; [by apply elem_of_nil in Hin|].
    apply Z.ltb_ge in Ei.
    set (inner := drop_bytes (Z.to_nat (Index s (open_tag re))
                              + String.length (open_tag re)) s) in *.
    destruct (Index inner (close_tag re) <? 0) eqn:Ej; [by apply elem_of_nil in Hin|].
    apply Z.ltb_ge in Ej.
    pose proof (Index_split s _ Ei) as Hs. fold inner in Hs.
    pose proof (Index_split inner _ Ej) as Hinner.
    apply elem_of_cons in Hin as [-> | Hin].
    + split; [by apply take_before_Index|].
      exists (take_bytes (Z.to_nat (Index s (open_tag re))) s),
             (drop_bytes (Z.to_nat (Index inner (close_tag re))
                          + String.length (close_tag re)) inner).
      rewrite Hs at 1. rewrite Hinner at 1. by rewrite !string_app_assoc.
    + destruct (IH _ Hin) as [Hno Hc]. split; [done|].
      rewrite Hs. apply contains_app_l, contains_app_l.
      rewrite Hinner. by apply contains_app_l, contains_app_l.
Qed.

Lemma matches_are_lazy_witness :
  ¬ contains "<td>Root D</td><td>64</td>" "</tr>"
  ∧ contains Sample.table_two ("<tr>" +:+ "<td>Root D</td><td>64</td>" +:+ "</tr>").
Proof.
  apply (matches_are_lazy re_tr Sample.table_two "<td>Root D</td><td>64</td>").
  - discriminate.
  - vm_compute. apply list_elem_of_further, list_elem_of_here.
Defined.

(** X2: the section that is parsed.  When lines 160-163 give a section,
    it starts with the anchor, it holds no [</div>], and it stands in the
    body right in front of a [</div>]: the table is looked for between the
    first anchor and the first [</div>] behind it, and nowhere else. *)
Theorem trusted_section_shape body section :
  trusted_section body = Ret section →
  HasPrefix section anchor = true
  ∧ ¬ contains section "</div>"
  ∧ contains body (section +:+ "</div>").
Proof.
  unfold trusted_section, slice_from.
  destruct ((Index body anchor <? 0) || (len body <? Index body anchor)) eqn:Ei;
    [done|]. simpl. unfold slice_to.
  apply orb_false_iff in Ei as [Ei _]. apply Z.ltb_ge in Ei.
  set (text := drop_bytes (Z.to_nat (Index body anchor)) body).
  destruct ((Index text "</div>" <? 0) || (len text <? Index text "</div>")) eqn:Ej;
    [done|]. intros [= <-].
  apply orb_false_iff in Ej as [Ej _]. apply Z.ltb_ge in Ej.
  split; [|split].
  - pose proof (drop_at_Index body anchor Ei) as Hp. fold text in Hp.
    apply HasPrefix_true in Hp as [rest Hrest]. revert Ej. rewrite Hrest.
    clear. set (a := anchor). vm_compute in a. subst a.
    rewrite !string_app_cons. change ("" +:+ rest) with rest.
    intros Ej.
    repeat (apply Index_step in Ej as [Ej ->]; [|reflexivity]).
    replace (Z.to_nat (Index rest "</div>" + 1 + 1 + 1 + 1 + 1 + 1 + 1 + 1 + 1 + 1
                       + 1 + 1 + 1 + 1 + 1 + 1 + 1))
      with (17 + Z.to_nat (Index rest "</div>"))%nat by lia.
    reflexivity.
  - by apply take_before_Index.
  - rewrite <- (take_drop_bytes (Z.to_nat (Index body anchor)) body). fold text.
    apply contains_app_l. rewrite (Index_split text _ Ej) at 1.
    exists "", (drop_bytes (Z.to_nat (Index text "</div>") + String.length "</div>") text).
    by rewrite !string_app_assoc.
Qed.

Lemma trusted_section_shape_witness :
  HasPrefix (anchor +:+ "><table>" +:+ Sample.table_two +:+ "</table>") anchor = true
  ∧ ¬ contains (anchor +:+ "><table>" +:+ Sample.table_two +:+ "</table>") "</div>"
  ∧ contains (Sample.page Sample.table_two)
      ((anchor +:+ "><table>" +:+ Sample.table_two +:+ "</table>") +:+ "</div>").
Proof.
  apply (trusted_section_shape (Sample.page Sample.table_two)).
  vm_compute. reflexivity.
Defined.

Section Parser_more.
Context `{GoLib}.

(** X3: an anchor without a [</div>] behind it.  When the body holds the
    anchor and the text from the first anchor on holds no [</div>], the
    second slice expression, [text[:strings.Index(text, "</div>")]],
    panics; [main] ends with the panic, before the export is started and
    without a file. *)
Theorem missing_close_div_panics w body :
  http_Get w trustURL = Body body →
  contains body anchor →
  ¬ contains (drop_bytes (Z.to_nat (Index body anchor)) body) "</div>" →
  fetchCertIDs w = ([EvHttpGet trustURL], Panic slice_panic)
  ∧ main w = ([EvHttpGet trustURL], Panic slice_panic)
  ∧ execs (main w).1 = []
  ∧ writes (main w).1 = [].
Proof.
  intros Hb Ha Hno.
  assert (fetchCertIDs w = ([EvHttpGet trustURL], Panic slice_panic)) as Hf.
  { rewrite (fetchCertIDs_body _ _ Hb). unfold parseCertIDs, trusted_section, slice_from.
    pose proof (Index_present _ _ Ha). pose proof (Index_upper body anchor).
    replace (Index body anchor <? 0) with false by lia.
    replace (len body <? Index body anchor) with false by lia.
    simpl. unfold slice_to. by rewrite (Index_absent _ _ Hno). }
  pose proof (main_select_panic _ _ _ (selectCerts_fetch_panic _ _ _ Hf)) as Hm.
  by rewrite Hm.
Qed.

End Parser_more.

Lemma missing_close_div_panics_witness :
  @main Sample.lib
    (Sample.world ("<html>" +:+ anchor +:+ "><table></table></html>") "d" "roots_list.go")
  = ([EvHttpGet trustURL], Panic slice_panic).
Proof.
  apply (@missing_close_div_panics Sample.lib
           (Sample.world ("<html>" +:+ anchor +:+ "><table></table></html>") "d"
              "roots_list.go")
           ("<html>" +:+ anchor +:+ "><table></table></html>")).
  - reflexivity.
  - apply Index_found. vm_compute. discriminate.
  - intros Hc. apply Index_present in Hc. revert Hc. vm_compute.
    intros Hc. by apply Hc.
Defined.

(** The header loop numbers the labels from its start index on; what it
    has bound in front of a part of the header is the start of that part. *)
Lemma header_loop_app i hdr1 hdr2 cols :
  header_loop i (hdr1 ++ hdr2) cols
  = header_loop (i + Z.of_nat (length hdr1)) hdr2 (header_loop i hdr1 cols).
Proof.
  revert i cols. induction hdr1 as [|m hdr1 IH]; intros i cols; simpl.
  - f_equal. lia.
  - rewrite IH. f_equal. lia.
Qed.

(** X4: columns are found by label.  The index that the program uses for
    a label is the position of the last cell of the header row that
    carries the label, wherever in the row that is. *)
Theorem label_gives_its_column (hdr : list string) (i : nat) (label : string) :
  hdr !! i = Some label →
  label ∉ drop (S i) hdr →
  map_index (header_loop 0 hdr ∅) label = Z.of_nat i.
Proof.
  intros Hi Hlast. unfold map_index.
  rewrite <- (take_drop_middle hdr i label Hi), header_loop_app. simpl.
  rewrite header_loop_other by done. rewrite lookup_insert_eq. simpl.
  pose proof (lookup_lt_Some _ _ _ Hi). rewrite length_take. lia.
Qed.

Lemma label_gives_its_column_witness :
  map_index (header_loop 0 ["Issuer"; "Fingerprint (SHA-256)"; "Certificate name"] ∅)
    label_name = 2.
Proof.
  apply (label_gives_its_column
           ["Issuer"; "Fingerprint (SHA-256)"; "Certificate name"] 2 label_name).
  - reflexivity.
  - apply not_elem_of_nil.
Defined.

(** The columns of a header are indices: none is negative. *)
Lemma header_loop_nonneg hdr i cols label :
  0 ≤ i → (∀ l, 0 ≤ map_index cols l) → 0 ≤ map_index (header_loop i hdr cols) label.
Proof.
  revert i cols. induction hdr as [|m hdr IH]; intros i cols Hi Hcols; simpl; [done|].
  apply IH; [lia|]. intros l. unfold map_index.
  destruct (decide (m = l)) as [-> | Hne].
  - by rewrite lookup_insert_eq.
  - rewrite lookup_insert_ne by done. apply Hcols.
Qed.

Lemma index_at_in_range {A} (l : list A) i :
  0 ≤ i → i < Z.of_nat (length l) →
  ∃ x, l !! Z.to_nat i = Some x ∧ index_at l i = Ret x.
Proof.
  intros H0 Hlt. unfold index_at. replace (i <? 0) with false by lia.
  destruct (l !! Z.to_nat i) as [x|] eqn:E; [by exists x|].
  apply lookup_ge_None in E. lia.
Qed.

Lemma rows_loop_well_formed data i cols ids :
  0 < i → (∀ l, 0 ≤ map_index cols l) →
  Forall (λ row, ¬ short_row cols row) data →
  ∃ ids', rows_loop i data cols ids = Ret (ids ++ ids')
          ∧ Forall2 (row_entry cols) data ids'.
Proof.
  intros Hi Hcols Hrows. revert i ids Hi.
  induction Hrows as [|row data Hrow Hrows IH]; intros i ids Hi; simpl.
  - exists []. by rewrite app_nil_r.
  - replace (i =? 0) with false by lia.
    unfold short_row, cells in Hrow.
    destruct (index_at_in_range (FindAllStringSubmatch re_td row)
                (map_index cols label_name)) as (nm & Hnm & ->); [done | lia |].
    destruct (index_at_in_range (FindAllStringSubmatch re_td row)
                (map_index cols label_fingerprint)) as (fp & Hfp & ->); [done | lia |].
    simpl.
    destruct (IH (i + 1)
                (ids ++ [{| name := ReplaceAll nm "&nbsp;" "";
                            fingerprint := normalize_fingerprint fp |}]))
      as (ids' & -> & Hall); [lia|].
    eexists (_ :: ids'). rewrite <- app_assoc. split; [done|].
    constructor; [|done]. by exists nm, fp.
Qed.

(** X5: one entry for every data row.  When no data row of the table is
    short, [fetchCertIDs] returns, and it returns one entry for each data
    row, in the order of the rows: the entry of a row is made of its two
    cells under the labels of the header.  (With [short_row_is_fatal]:
    [fetchCertIDs] returns a list exactly when no data row is short.) *)
Theorem well_formed_rows_give_entries w body section hdr data :
  http_Get w trustURL = Body body →
  trusted_section body = Ret section →
  FindAllStringSubmatch re_tr section = hdr :: data →
  Forall (λ row, ¬ short_row (header_loop 0 (FindAllStringSubmatch re_th hdr) ∅) row)
    data →
  ∃ ids,
    fetchCertIDs w = ([EvHttpGet trustURL], Ret ids)
    ∧ Forall2 (row_entry (header_loop 0 (FindAllStringSubmatch re_th hdr) ∅)) data ids
    ∧ length ids = length data.
Proof.
  intros Hb Hs Hr Hrows.
  destruct (rows_loop_well_formed data 1
              (header_loop 0 (FindAllStringSubmatch re_th hdr) ∅) [])
    as (ids & Hloop & Hall); [lia | | done |].
  { intros l. apply header_loop_nonneg; [lia|]. intros l'. unfold map_index.
    by rewrite lookup_empty. }
  exists ids. rewrite (fetchCertIDs_body _ _ Hb), (parseCertIDs_rows _ _ _ _ Hs Hr).
  split; [by rewrite Hloop|]. split; [done|].
  symmetry. by apply Forall2_length in Hall.
Qed.

Lemma well_formed_rows_give_entries_witness :
  ∃ ids,
    fetchCertIDs (Sample.world (Sample.page Sample.table_two) "d" "roots_list.go")
    = ([EvHttpGet trustURL], Ret ids)
    ∧ Forall2
        (row_entry
           (header_loop 0
              (FindAllStringSubmatch re_th
                 "<th>Certificate name</th><th>Fingerprint (SHA-256)</th>") ∅))
        ["<td>Root D</td><td>64</td>"; "<td>Root E</td><td>65</td>"] ids
    ∧ length ids = 2%nat.
Proof.
  apply (well_formed_rows_give_entries
           (Sample.world (Sample.page Sample.table_two) "d" "roots_list.go")
           (Sample.page Sample.table_two)
           (anchor +:+ "><table>" +:+ Sample.table_two +:+ "</table>")
           "<th>Certificate name</th><th>Fingerprint (SHA-256)</th>"
           ["<td>Root D</td><td>64</td>"; "<td>Root E</td><td>65</td>"]).
  - reflexivity.
  - vm_compute. reflexivity.
  - vm_compute. reflexivity.
  - repeat constructor; intros [Hs | Hs]; vm_compute in Hs; by apply Hs.
Defined.

(** ** The normal form of a fingerprint *)

Lemma bytes_of_cons c s : bytes_of (String c s) = c :: bytes_of s.
Proof. reflexivity. Qed.

Arguments bytes_of : simpl never.

(** Removing the instances of [old] adds no byte. *)
Lemma ReplaceAll_from_bytes k s old c :
  c ∈ bytes_of (ReplaceAll_from k s old "") → c ∈ bytes_of s.
Proof.
  revert k. induction s as [|d s IH]; intros k; simpl; [done|].
  rewrite bytes_of_cons. destruct k as [|k].
  - destruct (HasPrefix (String d s) old).
    + change ("" +:+ ?x) with x. intros Hin. apply list_elem_of_further. by eapply IH.
    + rewrite bytes_of_cons. intros Hin.
      apply elem_of_cons in Hin as [-> | Hin];
        [apply list_elem_of_here | apply list_elem_of_further; by eapply IH].
  - intros Hin. apply list_elem_of_further. by eapply IH.
Qed.

(** Removing the instances of a single byte leaves none of it. *)
Lemma ReplaceAll_byte_gone s o : o ∉ bytes_of (ReplaceAll s (String o "") "").
Proof.
  unfold ReplaceAll. induction s as [|d s IH]; simpl.
  - apply not_elem_of_nil.
  - destruct (Ascii.eqb o d) eqn:E.
    + destruct s; exact IH.
    + rewrite bytes_of_cons. apply not_elem_of_cons. split; [|exact IH].
      by apply Ascii.eqb_neq in E.
Qed.

(** A text without the first byte of [old] holds no instance of [old]. *)
Lemma ReplaceAll_absent s o old new :
  o ∉ bytes_of s → ReplaceAll s (String o old) new = s.
Proof.
  unfold ReplaceAll. induction s as [|d s IH]; intros Hno; simpl; [done|].
  rewrite bytes_of_cons in Hno. apply not_elem_of_cons in Hno as [Hne Hno].
  replace (Ascii.eqb o d) with false; [by rewrite IH|].
  symmetry. by apply Ascii.eqb_neq.
Qed.

Lemma ToLower_bytes s : bytes_of (ToLower s) = lower_byte <$> bytes_of s.
Proof. induction s as [|c s IH]; [done|]. simpl. rewrite !bytes_of_cons. by f_equal. Qed.

Ltac each_byte c :=
  destruct c as [[] [] [] [] [] [] [] []]; vm_compute; try done.

Lemma lower_byte_space d : lower_byte d = " "%char → d = " "%char.
Proof. each_byte d. Qed.

Lemma lower_byte_newline d : lower_byte d = "010"%char → d = "010"%char.
Proof. each_byte d. Qed.

Lemma lower_byte_not_upper d : is_upper (lower_byte d) = false.
Proof. each_byte d. Qed.

Lemma lower_byte_hex d : is_lower_hex d = true → lower_byte d = d.
Proof. each_byte d. Qed.

Lemma hex_digits_of_byte c :
  is_lower_hex (hex_digit (nat_of_ascii c / 16)) = true
  ∧ is_lower_hex (hex_digit (nat_of_ascii c mod 16)) = true.
Proof. each_byte c. Qed.

Lemma EncodeToString_hex src :
  Forall (λ c, is_lower_hex c = true) (bytes_of (EncodeToString src)).
Proof.
  induction src as [|c src IH]; simpl; [constructor|].
  rewrite !bytes_of_cons. destruct (hex_digits_of_byte c) as [Hhi Hlo].
  by repeat constructor.
Qed.

Lemma ToLower_hex s :
  Forall (λ c, is_lower_hex c = true) (bytes_of s) → ToLower s = s.
Proof.
  induction s as [|c s IH]; [done|]. rewrite bytes_of_cons. intros Hall.
  apply Forall_cons in Hall as [Hc Hall]. simpl. by rewrite lower_byte_hex, IH.
Qed.

Lemma hex_text_lacks s o :
  is_lower_hex o = false →
  Forall (λ c, is_lower_hex c = true) (bytes_of s) → o ∉ bytes_of s.
Proof.
  intros Ho Hall Hin. rewrite Forall_forall in Hall. specialize (Hall _ Hin). congruence.
Qed.

(** X6: what the normalization leaves out.  For a cell of ASCII text,
    on which [strings.ToLower] changes the letters [A]..[Z] and nothing
    else, the fingerprint of the entry made from the cell holds no blank,
    no line feed and no upper-case letter. *)
Theorem normalized_fingerprint_is_clean (fp : string) :
  Forall (λ c, is_ascii c = true) (bytes_of fp) →
  Forall (λ c, c ≠ " "%char ∧ c ≠ "010"%char ∧ is_upper c = false)
    (bytes_of (normalize_fingerprint fp)).
Proof.
  intros _. apply Forall_forall. intros c. unfold normalize_fingerprint.
  rewrite ToLower_bytes. intros Hin.
  apply list_elem_of_fmap in Hin as (d & -> & Hd).
  apply ReplaceAll_from_bytes in Hd.
  split; [|split].
  - intros Hsp. apply lower_byte_space in Hsp as ->.
    by apply ReplaceAll_byte_gone in Hd.
  - intros Hnl. apply lower_byte_newline in Hnl as ->.
    apply ReplaceAll_from_bytes in Hd. by apply ReplaceAll_byte_gone in Hd.
  - apply lower_byte_not_upper.
Qed.

(** A cell as the page shows it: upper case, in groups, on two lines. *)
Lemma normalized_fingerprint_is_clean_witness :
  Forall (λ c, c ≠ " "%char ∧ c ≠ "010"%char ∧ is_upper c = false)
    (bytes_of (normalize_fingerprint ("AB CD<br>" +:+ nl +:+ "EF&nbsp;01"))).
Proof.
  apply (normalized_fingerprint_is_clean ("AB CD<br>" +:+ nl +:+ "EF&nbsp;01")).
  vm_compute. repeat constructor.
Defined.

Section Fingerprint_forms.
Context `{GoLib}.

(** X7: the two sides meet.  The key under which [sysCerts] files a
    certificate, the lower-case hexadecimal form of its digest, is left as
    it is by the normalization of [fetchCertIDs]: a page that shows the
    key itself names the certificate. *)
Theorem index_key_is_normal (cert : Certificate) :
  normalize_fingerprint (fingerprintOf cert) = fingerprintOf cert.
Proof.
  unfold fingerprintOf, normalize_fingerprint.
  pose proof (EncodeToString_hex (sha256_Sum256 (Raw cert))) as Hhex.
  set (key := EncodeToString (sha256_Sum256 (Raw cert))) in *. unfold nl.
  do 4 (rewrite (ReplaceAll_absent key) by (by apply hex_text_lacks)).
  by apply ToLower_hex.
Qed.

End Fingerprint_forms.

(** ** More on the reconciler and the index *)

Lemma matched_by_fingerprints scerts ids :
  matched scerts ids = omap (λ k, scerts !! k) (fingerprint <$> ids).
Proof.
  unfold matched. induction ids as [|id ids IH]; [done|]. simpl.
  destruct (scerts !! fingerprint id); simpl; [f_equal|]; exact IH.
Qed.

(** X8: the name of an entry is for the warning only.  Two trust lists
    with the same fingerprints, in the same order, give the same bundle
    and the same number of warnings, whatever the names of their entries
    are. *)
Theorem names_do_not_select (ids1 ids2 : list certID)
    (scerts : gmap string Certificate) (certs : list Certificate) :
  fingerprint <$> ids1 = fingerprint <$> ids2 →
  (selectCerts_loop ids1 scerts certs).2 = (selectCerts_loop ids2 scerts certs).2
  ∧ length (stdout (selectCerts_loop ids1 scerts certs).1)
    = length (stdout (selectCerts_loop ids2 scerts certs).1).
Proof.
  intros Hfp. rewrite !selectCerts_loop_closed. simpl.
  assert (matched scerts ids1 = matched scerts ids2) as Hm.
  { by rewrite !matched_by_fingerprints, Hfp. }
  split; [by rewrite Hm|].
  rewrite !stdout_warnings, !length_fmap.
  pose proof (matched_unmatched_length scerts ids1).
  pose proof (matched_unmatched_length scerts ids2).
  apply (f_equal length) in Hfp. rewrite !length_fmap in Hfp. rewrite Hm in *. lia.
Qed.

Lemma names_do_not_select_witness :
  (selectCerts_loop [{| name := "Root D"; fingerprint := "64" |}]
     {[ "64" := Sample.cert_d ]} []).2
  = (selectCerts_loop [{| name := "Some other name"; fingerprint := "64" |}]
       {[ "64" := Sample.cert_d ]} []).2.
Proof.
  apply (names_do_not_select
           [{| name := "Root D"; fingerprint := "64" |}]
           [{| name := "Some other name"; fingerprint := "64" |}]
           {[ "64" := Sample.cert_d ]} []).
  reflexivity.
Defined.

(** X9: the reconciler works entry by entry.  Reconciling a trust list
    that is made of two parts is reconciling the first part and then the
    second, with the certificates of the first kept in front and the
    warnings of the first printed first. *)
Theorem reconciler_composes (ids1 ids2 : list certID)
    (scerts : gmap string Certificate) (certs : list Certificate) :
  selectCerts_loop (ids1 ++ ids2) scerts certs
  = (certs' ← selectCerts_loop ids1 scerts certs;
     selectCerts_loop ids2 scerts certs').
Proof.
  unfold mbind, run_mbind, run_bind. rewrite !selectCerts_loop_closed. simpl.
  rewrite selectCerts_loop_closed. simpl.
  unfold unmatched, matched. by rewrite filter_app, omap_app, fmap_app, app_assoc.
Qed.

Section Index_more.
Context `{GoLib}.

Local Abbreviation add_cert' :=
  (λ (m : gmap string Certificate) cert, <[fingerprintOf cert := cert]> m).

(** The loop of [sysCerts] keeps the index keyed by fingerprint. *)
Lemma sysCerts_loop_keyed fuel data certs m :
  keyed_by_fingerprint certs →
  sysCerts_loop fuel data certs = Some m →
  keyed_by_fingerprint m.
Proof.
  revert data certs. induction fuel as [|fuel IH]; intros data certs Hk; simpl.
  - destruct (len data <=? 0); [|done]. by intros [= <-].
  - destruct (len data <=? 0); [by intros [= <-]|].
    destruct (pem_Decode data) as [[b|] rest]; [|by intros [= <-]].
    destruct (negb (String.eqb (Type_ b) "CERTIFICATE")
              || negb (Z.of_nat (size (Headers b)) =? 0)); [by apply IH|].
    destruct (x509_ParseCertificate (Bytes b)) as [err|cert]; [by apply IH|].
    apply IH. intros k c. destruct (decide (fingerprintOf cert = k)) as [<- | Hne].
    + rewrite lookup_insert_eq. by intros [= <-].
    + rewrite lookup_insert_ne by done. apply Hk.
Qed.

Lemma sysCerts_keyed w t scerts :
  sysCerts w = (t, Ret scerts) → keyed_by_fingerprint scerts.
Proof.
  unfold sysCerts.
  destruct (cmd_Output w security_path security_args) as [err|data]; [done|].
  destruct (sysCerts_loop _ data ∅) as [m|] eqn:Hloop; [|done].
  intros [= _ <-]. apply (sysCerts_loop_keyed (String.length data) data ∅); [|done].
  intros k c Hl. by rewrite lookup_empty in Hl.
Qed.

(** X10: the bundle follows the trust list.  Whenever [selectCerts]
    returns, the fingerprints of the certificates it returns are
    fingerprints of the entries that were fetched, in the order of the
    entries; so a trust list without a repeated fingerprint gives a bundle
    without a repeated certificate. *)
Theorem bundle_follows_trust_list w t ids certs :
  fetchCertIDs w = (t, Ret ids) →
  (selectCerts w).2 = Ret certs →
  (fingerprintOf <$> certs) `sublist_of` (fingerprint <$> ids)
  ∧ (NoDup (fingerprint <$> ids) → NoDup (fingerprintOf <$> certs)).
Proof.
  intros Hf Hsel. unfold selectCerts in Hsel. rewrite Hf in Hsel.
  destruct (sysCerts w) as [t2 [scerts|err|msg|code|]] eqn:Hs;
    unfold mbind, run_mbind, run_bind in Hsel; simpl in Hsel; try done.
  rewrite selectCerts_loop_closed in Hsel. simpl in Hsel. injection Hsel as <-.
  pose proof (matched_fingerprints scerts ids (sysCerts_keyed _ _ _ Hs)) as Hsub.
  split; [done|]. intros Hnd. exact (sublist_NoDup _ _ Hnd Hsub).
Qed.

(** The index of a sequence binds a fingerprint to the last certificate
    of the sequence that has it. *)
Lemma index_of_last certs k :
  index_of certs !! k = last (filter (λ c, fingerprintOf c = k) certs).
Proof.
  unfold index_of. induction certs as [|c certs IH] using rev_ind; [done|].
  rewrite foldl_snoc, filter_app, filter_cons, filter_nil.
  destruct (decide (fingerprintOf c = k)) as [<- | Hne].
  - by rewrite lookup_insert_eq, last_snoc.
  - by rewrite lookup_insert_ne, app_nil_r.
Qed.

(** X11: the last certificate of a fingerprint wins.  For a store that
    can be read, the index of [sysCerts] binds every fingerprint to the
    last valid certificate of the store with that fingerprint, and binds
    nothing else: a later block replaces an earlier one of the same
    fingerprint. *)
Theorem store_last_certificate_wins w data :
  pem_Decode_consumes →
  cmd_Output w security_path security_args = inr data →
  ∃ scerts,
    (sysCerts w).2 = Ret scerts
    ∧ ∀ k, scerts !! k
           = last (filter (λ c, fingerprintOf c = k)
                     (omap certificate_of (blocks data))).
Proof.
  intros Hcons Hc. exists (index_of (omap certificate_of (blocks data))).
  rewrite (sysCerts_export_read _ _ Hcons Hc). split; [done|].
  intros k. apply index_of_last.
Qed.

End Index_more.

Lemma bundle_follows_trust_list_witness :
  (@fingerprintOf Sample.lib <$> [Sample.cert_d; Sample.cert_e])
    `sublist_of` ["64"; "65"].
Proof.
  apply (@bundle_follows_trust_list Sample.lib
           (Sample.world (Sample.page Sample.table_two) "a!dKe" "roots_list.go")
           [EvHttpGet trustURL]
           [{| name := "Root D"; fingerprint := "64" |};
            {| name := "Root E"; fingerprint := "65" |}]
           [Sample.cert_d; Sample.cert_e]).
  - vm_compute. reflexivity.
  - vm_compute. reflexivity.
Defined.

(** The store [ded]: the certificate [d] twice, with another between. *)
Lemma store_last_certificate_wins_witness :
  ∃ scerts,
    (@sysCerts Sample.lib
       (Sample.world (Sample.page Sample.table_two) "ded" "roots_list.go")).2
    = Ret scerts
    ∧ ∀ k, scerts !! k
           = last (filter (λ c, @fingerprintOf Sample.lib c = k)
                     (omap (@certificate_of Sample.lib) (@blocks Sample.lib "ded"))).
Proof.
  apply (@store_last_certificate_wins Sample.lib
           (Sample.world (Sample.page Sample.table_two) "ded" "roots_list.go") "ded").
  - exact sample_decode_consumes.
  - reflexivity.
Defined.

(** ** More on the whole run *)

Lemma join_cons t texts : join (t :: texts) = t +:+ join texts.
Proof. reflexivity. Qed.

Arguments join : simpl never.

Lemma preamble_assembled out :
  (generated_line out +:+ header) +:+ "const systemRootsPEM = `" +:+ nl = preamble out.
Proof. unfold generated_line, preamble. by rewrite !string_app_assoc. Qed.

Section Run_more.
Context `{GoLib}.

(** X12: when the network fails, nothing else is tried.  After an error
    of [http.Get] or of the reading of the body, [main] logs the error
    and ends with status 1; the export command is not started and no file
    is written. *)
Theorem network_failure_run w err :
  http_Get w trustURL = GetFailed err ∨ http_Get w trustURL = ReadFailed err →
  main w = ([EvHttpGet trustURL; EvLog err], Exit 1).
Proof.
  intros Hnet.
  by rewrite (main_select_fail _ _ _ (selectCerts_network_failure _ _ Hnet)).
Qed.

(** X13: when the export fails, the list that was fetched is dropped.
    After a page that parses and an error of the export command, [main]
    logs the error of the command and ends with status 1: no warning is
    printed, no certificate is logged and no file is written. *)
Theorem export_failure_run w body ids err :
  http_Get w trustURL = Body body →
  parseCertIDs body = Ret ids →
  cmd_Output w security_path security_args = inl err →
  main w
  = ([EvHttpGet trustURL; EvExec security_path security_args; EvLog err], Exit 1).
Proof.
  intros Hb Hp Hc.
  by rewrite (main_select_fail _ _ _ (selectCerts_export_failure _ _ _ _ Hb Hp Hc)).
Qed.

(** X14: every selected certificate is logged.  When the loop of [main]
    gets through, it has logged the subject of every certificate it was
    given, in order, those that the allow-list drops as well as those it
    keeps. *)
Theorem every_subject_is_logged certs buf text :
  (main_loop certs buf).2 = Ret text →
  (main_loop certs buf).1 = (λ c, EvLog (Subject_String c)) <$> certs.
Proof.
  revert buf. induction certs as [|cert certs IH]; intros buf; [done|]. simpl.
  destruct (allowed (Subject_String cert)).
  - destruct (pem_Encode _) as [err|t]; simpl; [done|].
    intros Hr. by rewrite (IH _ Hr).
  - simpl. intros Hr. by rewrite (IH _ Hr).
Qed.

(** The loop of [main] in closed form, when the encoder takes every
    allow-listed certificate. *)
Lemma main_loop_closed certs buf texts :
  Forall2 (λ c t, pem_Encode (certificate_block c) = inr t)
    (allowListFilter certs) texts →
  main_loop certs buf
  = ((λ c, EvLog (Subject_String c)) <$> certs, Ret (buf +:+ join texts)).
Proof.
  revert buf texts. induction certs as [|cert certs IH]; intros buf texts.
  - intros Hall. apply Forall2_nil_inv_l in Hall as ->. simpl.
    by rewrite string_app_nil_r.
  - rewrite allowListFilter_cons. simpl.
    destruct (allowed (Subject_String cert)).
    + intros Hall. apply Forall2_cons_inv_l in Hall as (t & texts' & Ht & Hall & ->).
      unfold certificate_block in Ht. rewrite Ht.
      rewrite (IH _ _ Hall). simpl. by rewrite join_cons, string_app_assoc.
    + intros Hall. by rewrite (IH _ _ Hall).
Qed.

Lemma assembled_text_aux out certs texts :
  Forall2 (λ c t, pem_Encode (certificate_block c) = inr t)
    (allowListFilter certs) texts →
  assemble out certs
  = ((λ c, EvLog (Subject_String c)) <$> certs,
     Ret (preamble out +:+ join texts +:+ "`")).
Proof.
  intros Hall.
  change (assemble out certs)
    with (buf ← main_loop certs
                  ((generated_line out +:+ header) +:+ "const systemRootsPEM = `" +:+ nl);
          mret (buf +:+ "`") : run string).
  rewrite preamble_assembled, (main_loop_closed _ _ _ Hall).
  unfold mbind, run_mbind, run_bind. simpl.
  by rewrite app_nil_r, string_app_assoc.
Qed.

(** X15: the text of the artifact.  When the encoder takes every
    allow-listed certificate, the text that is handed to the formatter is
    the line that names the generator and the output flag, the package
    clause, the opening of the constant, the PEM encodings of the
    allow-listed certificates one after the other, in order and without
    any separator, and the closing backquote. *)
Theorem assembled_text out certs texts :
  Forall2 (λ c t, pem_Encode (certificate_block c) = inr t)
    (allowListFilter certs) texts →
  assemble out certs
  = ((λ c, EvLog (Subject_String c)) <$> certs,
     Ret (preamble out +:+ join texts +:+ "`")).
Proof. apply assembled_text_aux. Qed.

(** A certificate that the encoder refuses ends the emission. *)
Lemma encode_all_refused certs buf cert err :
  cert ∈ certs →
  pem_Encode (certificate_block cert) = inl err →
  encode_all certs buf = Exit 1.
Proof.
  intros Hin Herr. revert buf.
  induction certs as [|c certs IH]; intros buf; [by apply elem_of_nil in Hin|].
  simpl. apply elem_of_cons in Hin as [<- | Hin].
  - unfold certificate_block in Herr. by rewrite Herr.
  - destruct (pem_Encode {| Type_ := "CERTIFICATE"; Headers := ∅; Bytes := Raw c |});
      [done | by apply IH].
Qed.

(** X16: an encoder error is fatal.  When [pem.Encode] refuses one of the
    allow-listed certificates that were selected, [main] ends with status
    1 and writes no file: the text is not formatted and nothing of it is
    kept. *)
Theorem encoder_failure_is_fatal w certs cert err :
  (selectCerts w).2 = Ret certs →
  cert ∈ allowListFilter certs →
  pem_Encode (certificate_block cert) = inl err →
  (main w).2 = Exit 1 ∧ writes (main w).1 = [].
Proof.
  intros Hs Hin Herr.
  pose proof (encode_all_refused _ "" _ _ Hin Herr) as Henc.
  pose proof (assemble_closed (output w) certs) as Hasm. rewrite Henc in Hasm.
  assert (writes (main w).1 = []) as Hw.
  { destruct (writes (main w).1) as [|[file data] l] eqn:Hwr; [done|].
    destruct (main_writes_shape w file data) as (_ & _ & certs' & buf' & Hs' & Ha' & _).
    { rewrite Hwr. apply list_elem_of_here. }
    rewrite Hs in Hs'. injection Hs' as <-. congruence. }
  split; [|done]. unfold main.
  destruct (selectCerts w) as [t o]. simpl in Hs. subst o.
  unfold mbind, run_mbind, run_bind. simpl.
  destruct (assemble (output w) certs) as [t2 o2]. simpl in Hasm. by subst o2.
Qed.

(** The whole of a run that reaches the write. *)
Lemma main_reaches_write w t1 ids t2 scerts texts source :
  fetchCertIDs w = (t1, Ret ids) →
  sysCerts w = (t2, Ret scerts) →
  Forall2 (λ c t, pem_Encode (certificate_block c) = inr t)
    (allowListFilter (matched scerts ids)) texts →
  format_Source (preamble (output w) +:+ join texts +:+ "`") = inr source →
  main w
  = (t1 ++ t2
     ++ ((λ id, EvStdout (warning id)) <$> unmatched scerts ids)
     ++ ((λ c, EvLog (Subject_String c)) <$> matched scerts ids)
     ++ EvWriteFile (output w) source 420
        :: match ioutil_WriteFile w (output w) source 420 with
           | Some err => [EvLog err]
           | None => []
           end,
     match ioutil_WriteFile w (output w) source 420 with
     | Some _ => Exit 1
     | None => Ret tt
     end).
Proof.
  intros Hf Hs Henc Hfmt. unfold main, selectCerts. rewrite Hf, Hs.
  unfold mbind, run_mbind, run_bind. simpl.
  rewrite selectCerts_loop_closed. simpl.
  rewrite (assembled_text_aux _ _ _ Henc). simpl. rewrite Hfmt. simpl.
  destruct (ioutil_WriteFile w (output w) source 420); simpl;
    by rewrite <- !app_assoc.
Qed.


(** X17: a run that reaches the write.  When the page gives a list, the
    store gives an index, the encoder takes the allow-listed certificates
    among the matched ones and the formatter takes the text, the effects
    of [main] are, in this order: the fetch, the export, one warning for
    every unmatched entry, one log line for every matched certificate, and
    the single write of the formatted text to the file of the flag.
    [main] then ends with status 0, or, when the write fails, logs that
    error and ends with status 1. *)
Theorem run_to_the_write w t1 ids t2 scerts texts source :
  fetchCertIDs w = (t1, Ret ids) →
  sysCerts w = (t2, Ret scerts) →
  Forall2 (λ c t, pem_Encode (certificate_block c) = inr t)
    (allowListFilter (matched scerts ids)) texts →
  format_Source (preamble (output w) +:+ join texts +:+ "`") = inr source →
  main w
  = (t1 ++ t2
     ++ ((λ id, EvStdout (warning id)) <$> unmatched scerts ids)
     ++ ((λ c, EvLog (Subject_String c)) <$> matched scerts ids)
     ++ EvWriteFile (output w) source 420
        :: match ioutil_WriteFile w (output w) source 420 with
           | Some err => [EvLog err]
           | None => []
           end,
     match ioutil_WriteFile w (output w) source 420 with
     | Some _ => Exit 1
     | None => Ret tt
     end).
Proof. apply main_reaches_write. Qed.

(** X18: what is emitted is the allow-listed part of the intersection.
    A certificate is among those that the loop of [main] encodes exactly
    when the index holds it under the fingerprint of some entry of the
    trust list and its subject is a key of the allow-list. *)
Theorem emitted_is_allowed_intersection
    (ids : list certID) (scerts : gmap string Certificate)
    (certs : list Certificate) (buf : string) :
  (selectCerts_loop ids scerts []).2 = Ret certs →
  (main_loop certs buf).2 = encode_all (allowListFilter certs) buf
  ∧ ∀ cert,
      cert ∈ allowListFilter certs
      ↔ (∃ id, id ∈ ids ∧ scerts !! fingerprint id = Some cert)
        ∧ Subject_String cert ∈ allowedCAs_entries.*1.
Proof.
  rewrite selectCerts_loop_closed. simpl. intros [= <-].
  split; [apply main_loop_filter|]. intros cert. unfold allowListFilter, matched.
  rewrite list_elem_of_filter, allowedCAs_keys, list_elem_of_omap. tauto.
Qed.

(** X19: an empty table is not an error.  When the section holds no row,
    or a header row only, [fetchCertIDs] returns the empty list; with a
    store that can be read, a text that formats and a file that can be
    written, [main] writes an artifact without any certificate and ends
    with status 0, without a warning. *)
Theorem empty_table_gives_empty_artifact w body section t2 scerts source :
  http_Get w trustURL = Body body →
  trusted_section body = Ret section →
  (length (FindAllStringSubmatch re_tr section) ≤ 1)%nat →
  sysCerts w = (t2, Ret scerts) →
  format_Source (preamble (output w) +:+ "`") = inr source →
  ioutil_WriteFile w (output w) source 420 = None →
  fetchCertIDs w = ([EvHttpGet trustURL], Ret [])
  ∧ main w
    = ([EvHttpGet trustURL] ++ t2 ++ [EvWriteFile (output w) source 420], Ret tt).
Proof.
  intros Hb Hs Hlen Hsys Hfmt Hwr.
  assert (fetchCertIDs w = ([EvHttpGet trustURL], Ret [])) as Hf.
  { rewrite (fetchCertIDs_body _ _ Hb). unfold parseCertIDs. rewrite Hs. simpl.
    destruct (FindAllStringSubmatch re_tr section) as [|hdr [|row rows]];
      [done | done | simpl in Hlen; lia]. }
  split; [done|].
  rewrite (main_reaches_write w _ [] _ scerts [] source Hf Hsys); [| constructor | done].
  by rewrite Hwr.
Qed.

End Run_more.

Lemma network_failure_run_witness :
  @main Sample.lib (world_offline "roots_list.go")
  = ([EvHttpGet trustURL; EvLog "dial tcp: no route to host"], Exit 1).
Proof.
  apply (@network_failure_run Sample.lib (world_offline "roots_list.go")).
  left. reflexivity.
Defined.

Lemma export_failure_run_witness :
  @main Sample.lib
    (Sample.world_export_failed (Sample.page Sample.table_two) "roots_list.go")
  = ([EvHttpGet trustURL; EvExec security_path security_args; EvLog "exit status 44"],
     Exit 1).
Proof.
  apply (@export_failure_run Sample.lib
           (Sample.world_export_failed (Sample.page Sample.table_two) "roots_list.go")
           (Sample.page Sample.table_two)
           [{| name := "Root D"; fingerprint := "64" |};
            {| name := "Root E"; fingerprint := "65" |}]).
  - reflexivity.
  - vm_compute. reflexivity.
  - reflexivity.
Defined.

(** The certificate [e] is not allow-listed, and logged all the same. *)
Lemma every_subject_is_logged_witness :
  (@main_loop Sample.lib [Sample.cert_d; Sample.cert_e] "").1
  = [EvLog "CN=DST Root CA X3,O=Digital Signature Trust Co."; EvLog "CN=e"].
Proof.
  apply (@every_subject_is_logged Sample.lib [Sample.cert_d; Sample.cert_e] ""
           (match (@main_loop Sample.lib [Sample.cert_d; Sample.cert_e] "").2 with
            | Ret text => text
            | _ => ""
            end)).
  vm_compute. reflexivity.
Defined.

Lemma assembled_text_witness :
  @assemble Sample.lib "roots_list.go" [Sample.cert_d; Sample.cert_e]
  = ([EvLog "CN=DST Root CA X3,O=Digital Signature Trust Co."; EvLog "CN=e"],
     Ret (preamble "roots_list.go"
          +:+ join ["-----BEGIN CERTIFICATE-----" +:+ nl +:+ "d" +:+ nl
                    +:+ "-----END CERTIFICATE-----" +:+ nl]
          +:+ "`")).
Proof.
  apply (@assembled_text Sample.lib "roots_list.go" [Sample.cert_d; Sample.cert_e]
           ["-----BEGIN CERTIFICATE-----" +:+ nl +:+ "d" +:+ nl
            +:+ "-----END CERTIFICATE-----" +:+ nl]).
  vm_compute. constructor; [reflexivity | constructor].
Defined.

Lemma encoder_failure_is_fatal_witness :
  (@main lib_no_encoder
     (Sample.world (Sample.page Sample.table_two) "a!dKe" "roots_list.go")).2 = Exit 1
  ∧ writes (@main lib_no_encoder
              (Sample.world (Sample.page Sample.table_two) "a!dKe" "roots_list.go")).1
    = [].
Proof.
  apply (@encoder_failure_is_fatal lib_no_encoder
           (Sample.world (Sample.page Sample.table_two) "a!dKe" "roots_list.go")
           [Sample.cert_d; Sample.cert_e] Sample.cert_d "pem: cannot encode").
  - vm_compute. reflexivity.
  - vm_compute. apply list_elem_of_here.
  - reflexivity.
Defined.

(** The page of two entries against the store [a!dK]: the entry of [e]
    is unmatched, the certificate [d] is emitted. *)
Lemma run_to_the_write_witness :
  (@main Sample.lib
     (Sample.world (Sample.page Sample.table_two) "a!dK" "roots_list.go")).2 = Ret tt.
Proof.
  rewrite (@run_to_the_write Sample.lib
             (Sample.world (Sample.page Sample.table_two) "a!dK" "roots_list.go")
             [EvHttpGet trustURL]
             [{| name := "Root D"; fingerprint := "64" |};
              {| name := "Root E"; fingerprint := "65" |}]
             [EvExec security_path security_args]
             (@index_of Sample.lib
                [{| Raw := "a"; Subject_String := "CN=a" |}; Sample.cert_d])
             ["-----BEGIN CERTIFICATE-----" +:+ nl +:+ "d" +:+ nl
              +:+ "-----END CERTIFICATE-----" +:+ nl]
             (preamble "roots_list.go"
              +:+ join ["-----BEGIN CERTIFICATE-----" +:+ nl +:+ "d" +:+ nl
                        +:+ "-----END CERTIFICATE-----" +:+ nl]
              +:+ "`")).
  - reflexivity.
  - vm_compute. reflexivity.
  - vm_compute. reflexivity.
  - vm_compute. constructor; [reflexivity | constructor].
  - reflexivity.
Defined.

Lemma emitted_is_allowed_intersection_witness :
  (@main_loop Sample.lib [Sample.cert_d; Sample.cert_e] "").2
  = @encode_all Sample.lib (allowListFilter [Sample.cert_d; Sample.cert_e]) "".
Proof.
  apply (@emitted_is_allowed_intersection Sample.lib
           [{| name := "Root D"; fingerprint := "64" |};
            {| name := "Root E"; fingerprint := "65" |}]
           (@index_of Sample.lib [Sample.cert_d; Sample.cert_e])
           [Sample.cert_d; Sample.cert_e] "").
  vm_compute. reflexivity.
Defined.

(** A page whose table has a header row and nothing else. *)
Lemma empty_table_gives_empty_artifact_witness :
  @main Sample.lib
    (Sample.world
       (Sample.page "<tr><th>Certificate name</th><th>Fingerprint (SHA-256)</th></tr>")
       "d" "roots_list.go")
  = ([EvHttpGet trustURL] ++ [EvExec security_path security_args]
     ++ [EvWriteFile "roots_list.go" (preamble "roots_list.go" +:+ "`") 420],
     Ret tt).
Proof.
  apply (@empty_table_gives_empty_artifact Sample.lib
           (Sample.world
              (Sample.page
                 "<tr><th>Certificate name</th><th>Fingerprint (SHA-256)</th></tr>")
              "d" "roots_list.go")
           (Sample.page "<tr><th>Certificate name</th><th>Fingerprint (SHA-256)</th></tr>")
           (anchor +:+ "><table>"
            +:+ "<tr><th>Certificate name</th><th>Fingerprint (SHA-256)</th></tr>"
            +:+ "</table>")
           [EvExec security_path security_args]
           (@index_of Sample.lib [Sample.cert_d])
           (preamble "roots_list.go" +:+ "`")).
  - reflexivity.
  - vm_compute. reflexivity.
  - vm_compute. lia.
  - vm_compute. reflexivity.
  - reflexivity.
  - reflexivity.
Defined.
